(** * LED_Matrix: a shallow embedding of the PWM direct-matrix driver

    The development follows [src/LED_Matrix.cpp]: the refresh interrupt
    routine [DirectMatrix_RefreshPWMLine], the constructor, [begin],
    [clear] and [PWMDirectMatrix::drawPixel].

    Conventions of the embedding.
    - C integers are values of [Z]; every conversion to a narrower type that
      the source performs is written out ([uint8], [int8], [uint16],
      [uint32]).  Expressions of type [int] (after the integer promotions)
      are computed exactly; in the statements below their values fit a
      16-bit [int].
    - The GPIO and timer calls are recorded, in program order, as a list of
      [event]s.  A pin is named by the table it is read from and the index
      used to read it, so [RowPin i] stands for [DirectMatrix_ROW_PINS[i]];
      the tables are taken to list pairwise distinct pins.  The level of a
      pin is the level last written to it.
    - The framebuffer is a memory of 16-bit cells addressed by the offset
      from the pointer [DirectMatrix_MATRIX]; the allocated block is the
      window [0, rows*cols).
    - A [for] loop is run by [for_loop] with a bound on the number of
      iterations; [None] means the bound was reached.
    - The [micros()] samples (latency and run time counters) do not
      influence any pin, timer or framebuffer access and are left out. *)

From Stdlib Require Import ZArith List Bool Lia.
Import ListNotations.
Local Open Scope Z_scope.

(** ** Machine integers *)

Definition uint8 (z : Z) : Z := z mod 256.
Definition uint16 (z : Z) : Z := z mod 65536.
Definition uint32 (z : Z) : Z := z mod 4294967296.
(** Conversion to [int8_t] (two's complement, as avr-gcc and arm-gcc do). *)
Definition int8 (z : Z) : Z := (z + 128) mod 256 - 128.

(** ** GPIO and timer events *)

Inductive level : Type := LOW | HIGH.

Inductive pin : Type :=
| RowPin (i : Z)   (* DirectMatrix_ROW_PINS[i] *)
| ColPin (i : Z)   (* DirectMatrix_COL_PINS[i] *)
| SRPin (i : Z).   (* DirectMatrix_SR_PINS[i] *)

Inductive event : Type :=
| PinMode (p : pin)                  (* pinMode(p, OUTPUT) *)
| DigitalWrite (p : pin) (l : level) (* digitalWrite(p, l) *)
| SetPeriod (us : Z)                 (* Timer1.setPeriod(us) *)
| TimerInitialize (us : Z)           (* Timer1.initialize(us) *)
| AttachInterrupt.                   (* Timer1.attachInterrupt(ISR) *)

Definition level_eqb (a b : level) : bool :=
  match a, b with
  | LOW, LOW | HIGH, HIGH => true
  | _, _ => false
  end.

Definition pin_eqb (p q : pin) : bool :=
  match p, q with
  | RowPin i, RowPin j => i =? j
  | ColPin i, ColPin j => i =? j
  | SRPin i, SRPin j => i =? j
  | _, _ => false
  end.

(** The C truth value of an integer used as the level argument. *)
Definition level_of (z : Z) : level := if z =? 0 then LOW else HIGH.

(** ** Loops *)

(** [for (i = i0; cond i; i = next i) body], at most [fuel - 1] iterations. *)
Fixpoint for_loop {S : Type} (fuel : nat) (next : Z -> Z) (cond : Z -> bool)
    (body : Z -> S -> option S) (i : Z) (s : S) : option S :=
  match fuel with
  | O => None
  | Datatypes.S fuel' =>
      if cond i then
        match body i s with
        | Some s' => for_loop fuel' next cond body (next i) s'
        | None => None
        end
      else Some s
  end.

(** Running a body over an explicit list of counter values. *)
Fixpoint iter_opt {S : Type} (body : Z -> S -> option S) (l : list Z) (s : S)
    : option S :=
  match l with
  | [] => Some s
  | i :: l' =>
      match body i s with
      | Some s' => iter_opt body l' s'
      | None => None
      end
  end.

(** [zrange lo n] is [lo; lo+1; ...; lo+n-1]. *)
Fixpoint zrange (lo : Z) (n : nat) : list Z :=
  match n with
  | O => []
  | Datatypes.S n' => lo :: zrange (lo + 1) n'
  end.

(** ** Program state *)

(** The framebuffer memory: cell offset from [DirectMatrix_MATRIX] to word. *)
Definition memory : Type := Z -> Z.

Definition store (m : memory) (i v : Z) : memory :=
  fun j => if j =? i then v else m j.

(** The file-scope globals shared with the interrupt routine. *)
Record globals : Type := mkGlobals {
  DirectMatrix_ARRAY_ROWS : Z;
  DirectMatrix_ARRAY_COLS : Z;
  DirectMatrix_NUM_COLORS : Z;
  DirectMatrix_MATRIX : memory;
  DirectMatrix_SR_PINS : Z -> Z;
  DirectMatrix_ISR_FREQ : list Z
}.

(** The members of the [PWMDirectMatrix] object that the methods read;
    [rotation] is the value [getRotation()] returns. *)
Record object : Type := mkObject {
  _num_rows : Z;
  _num_cols : Z;
  rotation : Z
}.

(** The function-local statics of the interrupt routine. *)
Record refresh : Type := mkRefresh {
  row : Z;
  pwm : Z;
  isr_freq_offset : Z
}.

(** Initial values of the statics ([row = 0], [pwm = 1],
    [isr_freq_offset = 0]). *)
Definition refresh_init : refresh := mkRefresh 0 1 0.

(** The locals of the interrupt routine that the colour loop updates,
    together with the events emitted so far. *)
Record line : Type := mkLine {
  pwm_shifted : Z;
  col_pin_offset : Z;
  emitted : list event
}.

Definition emit (e : event) (ln : line) : line :=
  mkLine (pwm_shifted ln) (col_pin_offset ln) (emitted ln ++ [e]).

(** Modelled from the spec: [DirectMatrix_PWM_LEVELS] is a macro of
    [LED_Matrix.h], which is not among the sources; section 4.3 of the spec
    resets the plane mask when it reaches 16. *)
Definition DirectMatrix_PWM_LEVELS : Z := 16.

Definition with_matrix (g : globals) (m : memory) : globals :=
  mkGlobals (DirectMatrix_ARRAY_ROWS g) (DirectMatrix_ARRAY_COLS g)
    (DirectMatrix_NUM_COLORS g) m (DirectMatrix_SR_PINS g)
    (DirectMatrix_ISR_FREQ g).

(** ** Concrete panels *)

(** Framebuffer contents: all cells off, and scenario 2 of the spec, the
    word [0x0001] in cell (3, 5) of an 8x8 panel. *)
Definition blank : memory := fun _ => 0.

Definition dim_pixel : memory := fun i => if i =? 3 * 8 + 5 then 1 else 0.

(** A shift-register pin table with no shift register: every entry is the
    value 255 that [begin] skips. *)
Definition no_shift_registers : Z -> Z := fun _ => 255.

(** The object and the globals that the constructor leaves. *)
Definition constructed_object (rows cols : Z) : object :=
  mkObject rows cols 0.

Definition constructed_globals (rows cols colors : Z) (m : memory) : globals :=
  mkGlobals rows cols colors m (fun _ => 0) [0; 0; 0; 0].

(** A panel after [begin] with base period 150 us and no shift register. *)
Definition panel (rows cols colors : Z) (m : memory) : globals :=
  mkGlobals rows cols colors m no_shift_registers [150; 300; 600; 1200].

(** Scenario 3 of the spec: two colours, the second behind a shift register
    whose latch is pin 11, and the word [0x00F0] in cell (0, 0). *)
Definition one_shift_register : Z -> Z :=
  fun i => if i =? 1 then 11 else 255.

Definition green_pixel : memory := fun i => if i =? 0 then 240 else 0.

Definition sr_panel (m : memory) : globals :=
  mkGlobals 8 8 2 m one_shift_register [150; 300; 600; 1200].

(** The word [0xF000], full intensity of the fourth colour, in cell
    (0, 0). *)
Definition fourth_colour_pixel : memory :=
  fun i => if i =? 0 then 61440 else 0.

(** Every write of the trace to a column pin uses a table index below
    [k]. *)
Definition column_pins_below (k : Z) (tr : list event) : bool :=
  forallb
    (fun e =>
       match e with
       | DigitalWrite (ColPin i) _ => i <? k
       | _ => true
       end) tr.

(** ** The driver *)

Section Driver.

(** Macros of [LED_Matrix.h], which is not among the sources: the pin value
    that marks a colour without shift register, and the positions of the
    data and clock pins in the shift-register pin table. *)
Variables DINV DATA CLK : Z.

(** [(DirectMatrix_MATRIX[row * DirectMatrix_ARRAY_COLS + col] &
      pwm_shifted) ? HIGH : LOW] *)
Definition cell_level (g : globals) (row col pwm_shifted : Z) : level :=
  level_of
    (Z.land (DirectMatrix_MATRIX g (row * DirectMatrix_ARRAY_COLS g + col))
       pwm_shifted).

(** The column loop of a colour wired to its own column pins; [col] is an
    [int8_t]. *)
Definition direct_columns (fuel : nat) (g : globals) (row : Z) (ln : line)
    : option line :=
  for_loop fuel (fun col => int8 (col + 1))
    (fun col => col <=? DirectMatrix_ARRAY_COLS g - 1)
    (fun col ln =>
       Some (emit (DigitalWrite (ColPin (col + col_pin_offset ln))
                     (cell_level g row col (pwm_shifted ln))) ln))
    0 ln.

(** The column loop of a colour behind a shift register. *)
Definition shifted_columns (fuel : nat) (g : globals) (row : Z) (ln : line)
    : option line :=
  for_loop fuel (fun col => int8 (col + 1))
    (fun col => col <=? DirectMatrix_ARRAY_COLS g - 1)
    (fun col ln =>
       let ln := emit (DigitalWrite (SRPin CLK) LOW) ln in
       let ln := emit (DigitalWrite (SRPin DATA)
                         (cell_level g row col (pwm_shifted ln))) ln in
       Some (emit (DigitalWrite (SRPin CLK) HIGH) ln))
    0 ln.

(** The body of the colour loop. *)
Definition color_body (fuel : nat) (g : globals) (row : Z) (color : Z)
    (ln : line) : option line :=
  let columns :=
    if DirectMatrix_SR_PINS g color =? DINV then
      direct_columns fuel g row ln
    else
      match shifted_columns fuel g row
              (emit (DigitalWrite (SRPin color) LOW) ln) with
      | Some ln => Some (emit (DigitalWrite (SRPin color) HIGH) ln)
      | None => None
      end in
  match columns with
  | Some ln =>
      Some (mkLine (uint16 (Z.shiftl (pwm_shifted ln) 4))
              (int8 (col_pin_offset ln + DirectMatrix_ARRAY_COLS g))
              (emitted ln))
  | None => None
  end.

(** The colour loop; [color] is an [int8_t]. *)
Definition color_loop (fuel : nat) (g : globals) (row : Z) (ln : line)
    : option line :=
  for_loop fuel (fun color => int8 (color + 1))
    (fun color => color <? DirectMatrix_NUM_COLORS g)
    (color_body fuel g row) 0 ln.

(** The statics after [row++] and the wrap to the next bit plane. *)
Definition advance (g : globals) (st : refresh) : refresh :=
  let row := uint8 (row st + 1) in
  if row >=? DirectMatrix_ARRAY_ROWS g then
    let pwm := uint8 (Z.shiftl (pwm st) 1) in
    let isr_freq_offset := uint8 (isr_freq_offset st + 1) in
    if pwm >=? DirectMatrix_PWM_LEVELS then mkRefresh 0 1 0
    else mkRefresh 0 pwm isr_freq_offset
  else mkRefresh row (pwm st) (isr_freq_offset st).

(** One invocation of the interrupt routine: the statics afterwards and the
    events of the invocation, or [None] if a loop exhausts [fuel]. *)
Definition DirectMatrix_RefreshPWMLine (fuel : nat) (g : globals)
    (st : refresh) : option (refresh * list event) :=
  let ln := mkLine (pwm st) 0 [] in
  let '(ln, oldrow) :=
    if row st =? 0 then
      (emit (SetPeriod (nth (Z.to_nat (isr_freq_offset st))
                          (DirectMatrix_ISR_FREQ g) 0)) ln,
       int8 (DirectMatrix_ARRAY_ROWS g - 1))
    else (ln, int8 (row st - 1)) in
  let ln := emit (DigitalWrite (RowPin oldrow) HIGH) ln in
  match color_loop fuel g (row st) ln with
  | None => None
  | Some ln =>
      let ln := emit (DigitalWrite (RowPin (row st)) LOW) ln in
      Some (advance g st, emitted ln)
  end.

(** [DirectMatrix::DirectMatrix] (with the [Adafruit_GFX] base, which starts
    at rotation 0).  [malloc n] is [Some m] for a block of [n] bytes with
    contents [m] and [None] for the null pointer, on which the constructor
    prints forever.  The pin table pointers are not set yet; the period
    table is zero-initialised. *)
Definition DirectMatrix_new (malloc : Z -> option memory)
    (num_rows num_cols num_colors : Z) : option (object * globals) :=
  match malloc (num_rows * num_cols * 2) with
  | None => None
  | Some _matrix =>
      Some (mkObject num_rows num_cols 0,
            mkGlobals num_rows num_cols num_colors _matrix (fun _ => 0)
              [0; 0; 0; 0])
  end.

(** The pre-clocking of one shift register in [begin]; [i] is a
    [uint8_t]. *)
Definition preclock (fuel : nat) (o : object) (tr : list event)
    : option (list event) :=
  for_loop fuel (fun i => uint8 (i + 1)) (fun i => i <=? _num_rows o)
    (fun i tr =>
       Some (tr ++ [DigitalWrite (SRPin CLK) LOW;
                    DigitalWrite (SRPin DATA) (level_of (Z.land i 1));
                    DigitalWrite (SRPin CLK) HIGH]))
    0 tr.

(** [DirectMatrix::begin].  The row and column pin tables are only stored;
    [sr_pins] is read.  Returns the globals and the events of the call. *)
Definition begin (fuel : nat) (o : object) (g : globals) (sr_pins : Z -> Z)
    (ISR_freq : Z) : option (globals * list event) :=
  let g :=
    mkGlobals (DirectMatrix_ARRAY_ROWS g) (DirectMatrix_ARRAY_COLS g)
      (DirectMatrix_NUM_COLORS g) (DirectMatrix_MATRIX g) sr_pins
      [ISR_freq; uint32 (Z.shiftl ISR_freq 1); uint32 (Z.shiftl ISR_freq 2);
       uint32 (Z.shiftl ISR_freq 3)] in
  match
    for_loop fuel (fun i => uint8 (i + 1)) (fun i => i <? _num_rows o)
      (fun i tr =>
         Some (tr ++ [PinMode (RowPin i); DigitalWrite (RowPin i) HIGH]))
      0 []
  with
  | None => None
  | Some tr =>
  match
    for_loop fuel (fun i => uint8 (i + 1)) (fun i => i <? _num_cols o)
      (fun i tr =>
         Some (tr ++ [PinMode (ColPin i); DigitalWrite (ColPin i) LOW]))
      0 tr
  with
  | None => None
  | Some tr =>
  match
    for_loop fuel (fun pin => uint8 (pin + 1)) (fun pin => pin <? 3)
      (fun pin tr =>
         if sr_pins pin =? 255 then Some tr
         else
           match
             preclock fuel o
               (tr ++ [PinMode (SRPin pin); PinMode (SRPin DATA);
                       PinMode (SRPin CLK); DigitalWrite (SRPin pin) LOW])
           with
           | Some tr => Some (tr ++ [DigitalWrite (SRPin pin) HIGH])
           | None => None
           end)
      0 tr
  with
  | None => None
  | Some tr =>
      Some (g, tr ++ [TimerInitialize (nth 0 (DirectMatrix_ISR_FREQ g) 0);
                      AttachInterrupt])
  end end end.

(** [DirectMatrix::clear]; [i] is a [uint8_t], the bound an [int]. *)
Definition clear (fuel : nat) (o : object) (g : globals) : option globals :=
  match
    for_loop fuel (fun i => uint8 (i + 1))
      (fun i => i <? _num_rows o * _num_cols o)
      (fun i m => Some (store m i 0))
      0 (DirectMatrix_MATRIX g)
  with
  | Some m => Some (with_matrix g m)
  | None => None
  end.

(** [PWMDirectMatrix::drawPixel]. *)
Definition drawPixel (o : object) (g : globals) (x y color : Z) : globals :=
  if (y <? 0) || (y >=? 8) then g
  else if (x <? 0) || (x >=? 8) then g
  else
    let '(x, y) :=
      match rotation o with
      | 1 => let '(x, y) := (y, x) in (8 - x - 1, y)
      | 2 => (8 - x - 1, 8 - y - 1)
      | 3 => let '(x, y) := (y, x) in (x, 8 - y - 1)
      | _ => (x, y)
      end in
    with_matrix g (store (DirectMatrix_MATRIX g) (y * _num_cols o + x) color).

(** [n] successive invocations of the interrupt routine: the statics at the
    end and, for each invocation, the statics on entry with its events. *)
Fixpoint run_isr (fuel : nat) (g : globals) (n : nat) (st : refresh)
    : option (refresh * list (refresh * list event)) :=
  match n with
  | O => Some (st, [])
  | Datatypes.S n' =>
      match DirectMatrix_RefreshPWMLine fuel g st with
      | None => None
      | Some (st', tr) =>
          match run_isr fuel g n' st' with
          | None => None
          | Some (st'', log) => Some (st'', (st, tr) :: log)
          end
      end
  end.

(** ** The events of one invocation in closed form *)

(** Value of [pwm_shifted] and of [col_pin_offset] when the colour loop
    reaches colour [i]. *)
Definition mask_at (m i : Z) : Z :=
  Nat.iter (Z.to_nat i) (fun ps => uint16 (Z.shiftl ps 4)) m.

Definition offset_at (g : globals) (i : Z) : Z :=
  Nat.iter (Z.to_nat i) (fun off => int8 (off + DirectMatrix_ARRAY_COLS g)) 0.

Definition columns_of (g : globals) : list Z :=
  zrange 0 (Z.to_nat (DirectMatrix_ARRAY_COLS g)).

Definition direct_events (g : globals) (row ps off : Z) : list event :=
  map (fun col => DigitalWrite (ColPin (col + off)) (cell_level g row col ps))
    (columns_of g).

Definition shifted_events (g : globals) (row ps : Z) : list event :=
  flat_map
    (fun col => [DigitalWrite (SRPin CLK) LOW;
                 DigitalWrite (SRPin DATA) (cell_level g row col ps);
                 DigitalWrite (SRPin CLK) HIGH])
    (columns_of g).

Definition plane_events_at (g : globals) (row i ps off : Z) : list event :=
  if DirectMatrix_SR_PINS g i =? DINV then direct_events g row ps off
  else
    [DigitalWrite (SRPin i) LOW] ++ shifted_events g row ps
      ++ [DigitalWrite (SRPin i) HIGH].

Definition plane_events (g : globals) (row m i : Z) : list event :=
  plane_events_at g row i (mask_at m i) (offset_at g i).

Definition column_events (g : globals) (st : refresh) : list event :=
  flat_map (plane_events g (row st) (pwm st))
    (zrange 0 (Z.to_nat (DirectMatrix_NUM_COLORS g))).

Definition period_events (g : globals) (st : refresh) : list event :=
  if row st =? 0 then
    [SetPeriod
       (nth (Z.to_nat (isr_freq_offset st)) (DirectMatrix_ISR_FREQ g) 0)]
  else [].

Definition oldrow (g : globals) (st : refresh) : Z :=
  if row st =? 0 then int8 (DirectMatrix_ARRAY_ROWS g - 1)
  else int8 (row st - 1).

Definition isr_events (g : globals) (st : refresh) : list event :=
  period_events g st ++ [DigitalWrite (RowPin (oldrow g st)) HIGH]
    ++ column_events g st ++ [DigitalWrite (RowPin (row st)) LOW].

(** Dimensions for which the [int8_t] counters of the interrupt routine
    reach their bounds. *)
Definition isr_dims (g : globals) : Prop :=
  0 <= DirectMatrix_ARRAY_ROWS g <= 255 /\
  0 <= DirectMatrix_ARRAY_COLS g <= 127 /\
  0 <= DirectMatrix_NUM_COLORS g <= 127.

(** ** Refresh state *)

(** The statics stay in range and the plane mask is the bit selected by the
    period index. *)
Definition refresh_inv (g : globals) (st : refresh) : Prop :=
  0 <= row st < DirectMatrix_ARRAY_ROWS g /\
  0 <= isr_freq_offset st < 4 /\
  pwm st = Z.shiftl 1 (isr_freq_offset st).

(** The statics after [n] invocations. *)
Fixpoint advance_n (g : globals) (n : nat) (st : refresh) : refresh :=
  match n with
  | O => st
  | Datatypes.S n' => advance_n g n' (advance g st)
  end.

(** The statics on entry and the events of [n] successive invocations. *)
Fixpoint isr_log (g : globals) (n : nat) (st : refresh)
    : list (refresh * list event) :=
  match n with
  | O => []
  | Datatypes.S n' => (st, isr_events g st) :: isr_log g n' (advance g st)
  end.

(** The invocations of one pass: rows [lo .. lo+n-1] at mask [m], period
    index [p]. *)
Definition pass_log (g : globals) (m p lo : Z) (n : nat)
    : list (refresh * list event) :=
  map (fun r => (mkRefresh r m p, isr_events g (mkRefresh r m p)))
    (zrange lo n).

(** The events of a log, in program order. *)
Definition events_of (log : list (refresh * list event)) : list event :=
  flat_map snd log.

(** The [setPeriod] arguments of a trace, in program order. *)
Fixpoint set_periods (tr : list event) : list Z :=
  match tr with
  | [] => []
  | SetPeriod us :: tr' => us :: set_periods tr'
  | _ :: tr' => set_periods tr'
  end.

(** Writes to a row pin, and writes to a column or shift-register pin. *)
Definition row_write (e : event) : bool :=
  match e with
  | DigitalWrite (RowPin _) _ => true
  | _ => false
  end.

Definition column_write (e : event) : bool :=
  match e with
  | DigitalWrite (ColPin _) _ | DigitalWrite (SRPin _) _ => true
  | _ => false
  end.

Definition gpio_write (e : event) : bool :=
  match e with
  | DigitalWrite _ _ => true
  | _ => false
  end.

(** [enables r e]: [e] drives row pin [r] to its enabled level, LOW. *)
Definition enables (r : Z) (e : event) : bool :=
  match e with
  | DigitalWrite (RowPin i) LOW => i =? r
  | _ => false
  end.

Definition count_enables (r : Z) (tr : list event) : nat :=
  length (filter (enables r) tr).

(** The invocations of a log that ran with period index [p]. *)
Definition in_plane (p : Z) (log : list (refresh * list event))
    : list (refresh * list event) :=
  filter (fun e => (isr_freq_offset (fst e) =? p)
                   && (pwm (fst e) =? Z.shiftl 1 p)) log.

(** ** The events of [begin] in closed form *)

Definition preclock_events (o : object) : list event :=
  flat_map
    (fun i => [DigitalWrite (SRPin CLK) LOW;
               DigitalWrite (SRPin DATA) (level_of (Z.land i 1));
               DigitalWrite (SRPin CLK) HIGH])
    (zrange 0 (Z.to_nat (_num_rows o + 1))).

Definition sr_setup_events (o : object) (sr_pins : Z -> Z) (pin : Z)
    : list event :=
  if sr_pins pin =? 255 then []
  else
    [PinMode (SRPin pin); PinMode (SRPin DATA); PinMode (SRPin CLK);
     DigitalWrite (SRPin pin) LOW]
      ++ preclock_events o ++ [DigitalWrite (SRPin pin) HIGH].

Definition row_setup_events (o : object) : list event :=
  flat_map (fun i => [PinMode (RowPin i); DigitalWrite (RowPin i) HIGH])
    (zrange 0 (Z.to_nat (_num_rows o))).

Definition col_setup_events (o : object) : list event :=
  flat_map (fun i => [PinMode (ColPin i); DigitalWrite (ColPin i) LOW])
    (zrange 0 (Z.to_nat (_num_cols o))).

Definition begin_events (o : object) (sr_pins : Z -> Z) (ISR_freq : Z)
    : list event :=
  row_setup_events o ++ col_setup_events o
    ++ flat_map (sr_setup_events o sr_pins) [0; 1; 2]
    ++ [TimerInitialize ISR_freq; AttachInterrupt].

Definition begin_globals (g : globals) (sr_pins : Z -> Z) (ISR_freq : Z)
    : globals :=
  mkGlobals (DirectMatrix_ARRAY_ROWS g) (DirectMatrix_ARRAY_COLS g)
    (DirectMatrix_NUM_COLORS g) (DirectMatrix_MATRIX g) sr_pins
    [ISR_freq; uint32 (Z.shiftl ISR_freq 1); uint32 (Z.shiftl ISR_freq 2);
     uint32 (Z.shiftl ISR_freq 3)].

(** ** Pin levels *)

(** The level last written to each pin, [None] before the first write. *)
Definition pins : Type := pin -> option level.

Definition unwritten : pins := fun _ => None.

Definition write (s : pins) (e : event) : pins :=
  match e with
  | DigitalWrite p l => fun q => if pin_eqb q p then Some l else s q
  | _ => s
  end.

Definition pins_after (s : pins) (tr : list event) : pins :=
  fold_left write tr s.

(** At most one row pin is at the enabled level. *)
Definition exclusive (s : pins) : Prop :=
  forall i j, s (RowPin i) = Some LOW -> s (RowPin j) = Some LOW -> i = j.

(** [exclusive] holds at every instant of the trace [tr] run from [s]. *)
Definition always_exclusive (s : pins) (tr : list event) : Prop :=
  forall pre suf, tr = pre ++ suf -> exclusive (pins_after s pre).

(** No row pin is enabled; no row pin other than [r] is enabled. *)
Definition quiet (s : pins) : Prop :=
  forall i, s (RowPin i) <> Some LOW.

Definition only_low (r : Z) (s : pins) : Prop :=
  forall i, s (RowPin i) = Some LOW -> i = r.

Definition no_enable (e : event) : bool :=
  match e with
  | DigitalWrite (RowPin _) LOW => false
  | _ => true
  end.

(** ** The rotation of the drawing surface, as the spec words it *)

(** Section 4.2 of the spec: 90 degrees is swap then [x <- 7 - x]; 180
    degrees is [x <- 7 - x], [y <- 7 - y]; 270 degrees is swap then
    [y <- 7 - y]. *)
Definition spec_swap (xy : Z * Z) : Z * Z := (snd xy, fst xy).

Definition spec_rotate (r : Z) (xy : Z * Z) : Z * Z :=
  match r with
  | 1 => let xy := spec_swap xy in (7 - fst xy, snd xy)
  | 2 => (7 - fst xy, 7 - snd xy)
  | 3 => let xy := spec_swap xy in (fst xy, 7 - snd xy)
  | _ => xy
  end.

(** The cell of the spec for a rotated position: index [y * C + x]. *)
Definition spec_cell (cols : Z) (xy : Z * Z) : Z := snd xy * cols + fst xy.

(** ** The framebuffer after [clear] *)

(** The memory after the stores [m[i] = 0] for the counter values [l]. *)
Definition zeroed (m : memory) (l : list Z) : memory :=
  fold_left (fun m i => store m i 0) l m.

(** Pin-mode settings of, and writes to, a column pin. *)
Definition touches_column (e : event) : bool :=
  match e with
  | PinMode (ColPin _) | DigitalWrite (ColPin _) _ => true
  | _ => false
  end.

(** ** Observations on traces *)

(** The levels written to pin [p], in program order. *)
Fixpoint writes_to (p : pin) (tr : list event) : list level :=
  match tr with
  | [] => []
  | DigitalWrite q l :: tr' =>
      if pin_eqb q p then l :: writes_to p tr' else writes_to p tr'
  | _ :: tr' => writes_to p tr'
  end.

(** Some write of the trace drives pin [p] HIGH. *)
Definition drives_high (p : pin) (tr : list event) : bool :=
  existsb (level_eqb HIGH) (writes_to p tr).

(** The number of [digitalWrite] calls of a trace. *)
Definition gpio_writes (tr : list event) : nat :=
  length (filter gpio_write tr).

(** The 4-bit intensity of colour [i] in a cell. *)
Definition nibble (cell i : Z) : Z := Z.shiftr cell (4 * i) mod 16.

(** The period-table entries of the invocations of a log that service row
    [r] and drive pin [p] HIGH, added up: the time for which the LED on row
    [r] behind [p] is lit when every pass runs at the period the routine
    selects for it. *)
Fixpoint lit_time (g : globals) (r : Z) (p : pin)
    (log : list (refresh * list event)) : Z :=
  match log with
  | [] => 0
  | e :: log' =>
      (if (row (fst e) =? r) && drives_high p (snd e) then
         nth (Z.to_nat (isr_freq_offset (fst e))) (DirectMatrix_ISR_FREQ g) 0
       else 0) + lit_time g r p log'
  end.

(** The [digitalWrite] calls that the colour loop spends on colour [j]:
    one per column on direct pins; the latch twice and three per column
    behind a shift register. *)
Definition plane_writes (g : globals) (j : Z) : nat :=
  if DirectMatrix_SR_PINS g j =? DINV then
    Z.to_nat (DirectMatrix_ARRAY_COLS g)
  else (2 + 3 * Z.to_nat (DirectMatrix_ARRAY_COLS g))%nat.

(** ** Pin modes before writes *)

(** [configured_before S tr]: every [digitalWrite] of [tr] goes to a pin
    that is in [S] or that an earlier [pinMode] of [tr] made an output. *)
Fixpoint configured_before (S : pin -> Prop) (tr : list event) : Prop :=
  match tr with
  | [] => True
  | PinMode p :: tr' => configured_before (fun q => S q \/ q = p) tr'
  | DigitalWrite p _ :: tr' => S p /\ configured_before S tr'
  | _ :: tr' => configured_before S tr'
  end.

(** ** The profiling counters *)

(** The static [time] of the interrupt routine ([None] until its
    initialiser has run, on the first invocation) and the two globals
    [DirectMatrix_ISR_runtime] and [DirectMatrix_ISR_latency]. *)
Record diagnostics : Type := mkDiagnostics {
  time : option Z;
  DirectMatrix_ISR_runtime : Z;
  DirectMatrix_ISR_latency : Z
}.

(** The values that the calls of [micros()] return during one invocation,
    in program order: the initialiser of [time] (first invocation only),
    the latency sample, the restart of [time], the run-time sample and the
    final restart of [time]. *)
Record readings : Type := mkReadings {
  t_init : Z;
  t_latency : Z;
  t_start : Z;
  t_runtime : Z;
  t_end : Z
}.

(** The value [micros()] returns at the instant [T] (microseconds since
    start-up): a free-running 32-bit counter. *)
Definition micros (T : Z) : Z := uint32 T.

(** [DirectMatrix_RefreshPWMLine] with its profiling statements: the latency
    sample and the restart of [time] before the refresh, the run-time
    sample and the restart after it. *)
Definition DirectMatrix_RefreshPWMLine_profiled (fuel : nat) (g : globals)
    (st : refresh) (d : diagnostics) (t : readings)
    : option (refresh * list event * diagnostics) :=
  let time0 := match time d with Some v => v | None => t_init t end in
  let latency := uint32 (t_latency t - time0) in
  let time1 := t_start t in
  match DirectMatrix_RefreshPWMLine fuel g st with
  | None => None
  | Some (st', ev) =>
      let runtime := uint32 (t_runtime t - time1) in
      let time2 := t_end t in
      Some (st', ev, mkDiagnostics (Some time2) runtime latency)
  end.

(** [DirectMatrix::ISR_runtime] and [DirectMatrix::ISR_latency]. *)
Definition ISR_runtime (d : diagnostics) : Z := DirectMatrix_ISR_runtime d.
Definition ISR_latency (d : diagnostics) : Z := DirectMatrix_ISR_latency d.

(** ** Machine integers and ranges *)

Lemma int8_small (z : Z) : -128 <= z <= 127 -> int8 z = z.
Proof. intros H. unfold int8. rewrite Z.mod_small; lia. Qed.

Lemma uint8_small (z : Z) : 0 <= z <= 255 -> uint8 z = z.
Proof. intros H. unfold uint8. apply Z.mod_small. lia. Qed.

Lemma in_zrange (n : nat) : forall lo x,
  In x (zrange lo n) <-> lo <= x < lo + Z.of_nat n.
Proof.
  induction n as [|n IH]; intros lo x; simpl zrange.
  - simpl. lia.
  - simpl In. rewrite IH. lia.
Qed.

Lemma zrange_app (n m : nat) : forall lo,
  zrange lo (n + m) = zrange lo n ++ zrange (lo + Z.of_nat n) m.
Proof.
  induction n as [|n IH]; intros lo.
  - simpl. f_equal. lia.
  - change (Datatypes.S n + m)%nat with (Datatypes.S (n + m)).
    simpl zrange. rewrite IH. simpl. do 3 f_equal. lia.
Qed.

Lemma zrange_length (n : nat) : forall lo, length (zrange lo n) = n.
Proof. induction n; intros; simpl; auto. Qed.

(** ** Loops *)

(** A loop whose counter runs from [lo] to [lo + n] without wrapping. *)
Lemma for_loop_counted {S : Type} (next : Z -> Z) (cond : Z -> bool)
    (body : Z -> S -> option S) (n : nat) :
  forall lo s fuel,
    (forall k, lo <= k < lo + Z.of_nat n -> cond k = true /\ next k = k + 1) ->
    cond (lo + Z.of_nat n) = false ->
    (n < fuel)%nat ->
    for_loop fuel next cond body lo s = iter_opt body (zrange lo n) s.
Proof.
  induction n as [|n IH]; intros lo s fuel Hk Hend Hfuel;
    destruct fuel as [|fuel]; try lia; simpl.
  - replace (lo + Z.of_nat 0) with lo in Hend by (simpl; lia). now rewrite Hend.
  - destruct (Hk lo) as [Hc Hn]; [lia|]. rewrite Hc, Hn.
    destruct (body lo s) as [s'|]; [|reflexivity].
    apply IH; [| |lia].
    + intros k Hr. apply Hk. lia.
    + replace (lo + 1 + Z.of_nat n) with (lo + Z.of_nat (Datatypes.S n)) by lia.
      exact Hend.
Qed.

(** A loop whose condition holds on every counter value it can reach never
    ends, whatever the bound. *)
Lemma for_loop_diverges {S : Type} (next : Z -> Z) (cond : Z -> bool)
    (body : Z -> S -> option S) (P : Z -> Prop) :
  (forall i, P i -> cond i = true /\ P (next i)) ->
  forall fuel i s, P i -> for_loop fuel next cond body i s = None.
Proof.
  intros Hstep. induction fuel as [|fuel IH]; intros i s Hi; simpl.
  - reflexivity.
  - destruct (Hstep i Hi) as [Hc Hn]. rewrite Hc.
    destruct (body i s); [now apply IH | reflexivity].
Qed.

Lemma iter_opt_app {S : Type} (body : Z -> S -> option S) (l1 l2 : list Z) :
  forall s, iter_opt body (l1 ++ l2) s =
            match iter_opt body l1 s with
            | Some s' => iter_opt body l2 s'
            | None => None
            end.
Proof.
  induction l1 as [|i l1 IH]; intros s; simpl; [reflexivity|].
  destruct (body i s); [apply IH | reflexivity].
Qed.

Lemma iter_opt_ext {S : Type} (body1 body2 : Z -> S -> option S) (l : list Z) :
  (forall i s, body1 i s = body2 i s) ->
  forall s, iter_opt body1 l s = iter_opt body2 l s.
Proof.
  intros H. induction l as [|i l IH]; intros s; simpl; [reflexivity|].
  rewrite H. destruct (body2 i s); [apply IH | reflexivity].
Qed.

(** A loop body that only appends events, chosen by the counter and the two
    loop-invariant locals. *)
Lemma iter_opt_emit (f : Z -> Z -> Z -> list event) (l : list Z) :
  forall ln,
    iter_opt (fun i ln =>
                Some (mkLine (pwm_shifted ln) (col_pin_offset ln)
                        (emitted ln
                           ++ f i (pwm_shifted ln) (col_pin_offset ln)))) l ln
    = Some (mkLine (pwm_shifted ln) (col_pin_offset ln)
              (emitted ln
                 ++ flat_map
                      (fun i => f i (pwm_shifted ln) (col_pin_offset ln)) l)).
Proof.
  induction l as [|i l IH]; intros ln; simpl.
  - destruct ln; simpl. now rewrite app_nil_r.
  - rewrite IH. simpl. now rewrite <- app_assoc.
Qed.
(** ** The interrupt routine returns, with the events of [isr_events] *)

Lemma flat_map_singleton {A B : Type} (f : A -> B) (l : list A) :
  flat_map (fun x => [f x]) l = map f l.
Proof. induction l; simpl; congruence. Qed.

Lemma direct_columns_total (g : globals) (r : Z) (ln : line) (fuel : nat) :
  0 <= DirectMatrix_ARRAY_COLS g <= 127 -> (127 < fuel)%nat ->
  direct_columns fuel g r ln =
  Some (mkLine (pwm_shifted ln) (col_pin_offset ln)
          (emitted ln
             ++ direct_events g r (pwm_shifted ln) (col_pin_offset ln))).
Proof.
  intros HC Hfuel. unfold direct_columns.
  rewrite (for_loop_counted _ _ _ (Z.to_nat (DirectMatrix_ARRAY_COLS g))).
  - rewrite (iter_opt_emit
               (fun col ps off =>
                  [DigitalWrite (ColPin (col + off)) (cell_level g r col ps)])).
    unfold direct_events, columns_of. now rewrite flat_map_singleton.
  - intros k Hk. split; [apply Z.leb_le; lia | apply int8_small; lia].
  - apply Z.leb_gt. lia.
  - lia.
Qed.

Lemma shifted_columns_total (g : globals) (r : Z) (ln : line) (fuel : nat) :
  0 <= DirectMatrix_ARRAY_COLS g <= 127 -> (127 < fuel)%nat ->
  shifted_columns fuel g r ln =
  Some (mkLine (pwm_shifted ln) (col_pin_offset ln)
          (emitted ln ++ shifted_events g r (pwm_shifted ln))).
Proof.
  intros HC Hfuel. unfold shifted_columns.
  rewrite (for_loop_counted _ _ _ (Z.to_nat (DirectMatrix_ARRAY_COLS g))).
  - erewrite iter_opt_ext.
    + apply (iter_opt_emit
               (fun col ps off =>
                  [DigitalWrite (SRPin CLK) LOW;
                   DigitalWrite (SRPin DATA) (cell_level g r col ps);
                   DigitalWrite (SRPin CLK) HIGH])).
    + intros i s. unfold emit. simpl. now rewrite <- !app_assoc.
  - intros k Hk. split; [apply Z.leb_le; lia | apply int8_small; lia].
  - apply Z.leb_gt. lia.
  - lia.
Qed.

Lemma color_body_total (g : globals) (r i : Z) (ln : line) (fuel : nat) :
  0 <= DirectMatrix_ARRAY_COLS g <= 127 -> (127 < fuel)%nat ->
  color_body fuel g r i ln =
  Some (mkLine (uint16 (Z.shiftl (pwm_shifted ln) 4))
          (int8 (col_pin_offset ln + DirectMatrix_ARRAY_COLS g))
          (emitted ln
             ++ plane_events_at g r i (pwm_shifted ln) (col_pin_offset ln))).
Proof.
  intros HC Hfuel. unfold color_body, plane_events_at.
  destruct (DirectMatrix_SR_PINS g i =? DINV).
  - now rewrite direct_columns_total.
  - rewrite shifted_columns_total by assumption. simpl.
    now rewrite <- !app_assoc.
Qed.

Lemma mask_at_succ (m i : Z) :
  0 <= i -> mask_at m (i + 1) = uint16 (Z.shiftl (mask_at m i) 4).
Proof.
  intros Hi. unfold mask_at.
  replace (Z.to_nat (i + 1)) with (Datatypes.S (Z.to_nat i)) by lia.
  reflexivity.
Qed.

Lemma offset_at_succ (g : globals) (i : Z) :
  0 <= i ->
  offset_at g (i + 1) = int8 (offset_at g i + DirectMatrix_ARRAY_COLS g).
Proof.
  intros Hi. unfold offset_at.
  replace (Z.to_nat (i + 1)) with (Datatypes.S (Z.to_nat i)) by lia.
  reflexivity.
Qed.

Lemma color_iter_total (g : globals) (r m : Z) (fuel : nat) :
  0 <= DirectMatrix_ARRAY_COLS g <= 127 -> (127 < fuel)%nat ->
  forall n c ln,
    0 <= c ->
    pwm_shifted ln = mask_at m c ->
    col_pin_offset ln = offset_at g c ->
    iter_opt (color_body fuel g r) (zrange c n) ln =
    Some (mkLine (mask_at m (c + Z.of_nat n)) (offset_at g (c + Z.of_nat n))
            (emitted ln ++ flat_map (plane_events g r m) (zrange c n))).
Proof.
  intros HC Hfuel. induction n as [|n IH]; intros c ln Hc Hps Hoff.
  - simpl. rewrite app_nil_r. replace (c + 0) with c by lia.
    rewrite <- Hps, <- Hoff. now destruct ln.
  - simpl zrange. simpl iter_opt. rewrite color_body_total by assumption.
    rewrite IH; simpl; try lia.
    + rewrite <- app_assoc. unfold plane_events at 2. rewrite Hps, Hoff.
      do 2 f_equal; f_equal; lia.
    + rewrite Hps. symmetry. now apply mask_at_succ.
    + rewrite Hoff. symmetry. now apply offset_at_succ.
Qed.

Lemma color_loop_total (g : globals) (r : Z) (ln : line) (fuel : nat) :
  0 <= DirectMatrix_ARRAY_COLS g <= 127 ->
  0 <= DirectMatrix_NUM_COLORS g <= 127 ->
  (127 < fuel)%nat ->
  col_pin_offset ln = 0 ->
  exists ps off,
    color_loop fuel g r ln =
    Some (mkLine ps off
            (emitted ln
               ++ flat_map (plane_events g r (pwm_shifted ln))
                    (zrange 0 (Z.to_nat (DirectMatrix_NUM_COLORS g))))).
Proof.
  intros HC HK Hfuel Hoff. unfold color_loop.
  rewrite (for_loop_counted _ _ _ (Z.to_nat (DirectMatrix_NUM_COLORS g))).
  - rewrite (color_iter_total g r (pwm_shifted ln)) by (auto; lia).
    eauto.
  - intros k Hk. split; [apply Z.ltb_lt; lia | apply int8_small; lia].
  - apply Z.ltb_ge. lia.
  - lia.
Qed.

(** Every invocation returns: with dimensions in the range of the [int8_t]
    counters and a bound of at least 128 iterations per loop, the routine
    yields the statics of [advance] and the events of [isr_events]. *)
Lemma DirectMatrix_RefreshPWMLine_total (g : globals) (st : refresh)
    (fuel : nat) :
  isr_dims g -> (127 < fuel)%nat ->
  DirectMatrix_RefreshPWMLine fuel g st = Some (advance g st, isr_events g st).
Proof.
  intros (HR & HC & HK) Hfuel.
  unfold DirectMatrix_RefreshPWMLine, isr_events, period_events, oldrow,
    column_events.
  destruct (row st =? 0).
  - edestruct color_loop_total as (ps & off & ->); eauto.
  - edestruct color_loop_total as (ps & off & ->); eauto.
Qed.
(** ** Progression of the statics *)

Lemma advance_same_pass (g : globals) (st : refresh) :
  0 <= row st -> row st + 1 < DirectMatrix_ARRAY_ROWS g ->
  DirectMatrix_ARRAY_ROWS g <= 255 ->
  advance g st = mkRefresh (row st + 1) (pwm st) (isr_freq_offset st).
Proof.
  intros H0 H1 H2. unfold advance. rewrite uint8_small by lia.
  destruct (Z.geb_spec (row st + 1) (DirectMatrix_ARRAY_ROWS g)); [lia|].
  reflexivity.
Qed.

Lemma advance_next_pass (g : globals) (r p : Z) :
  r + 1 = DirectMatrix_ARRAY_ROWS g -> 0 <= r < 255 -> 0 <= p < 4 ->
  advance g (mkRefresh r (Z.shiftl 1 p) p) =
  mkRefresh 0 (Z.shiftl 1 ((p + 1) mod 4)) ((p + 1) mod 4).
Proof.
  intros H1 H2 Hp. unfold advance. simpl. rewrite uint8_small by lia.
  destruct (Z.geb_spec (r + 1) (DirectMatrix_ARRAY_ROWS g)); [|lia].
  assert (Hcases : p = 0 \/ p = 1 \/ p = 2 \/ p = 3) by lia.
  destruct Hcases as [-> | [-> | [-> | ->]]]; reflexivity.
Qed.

Lemma advance_inv (g : globals) (st : refresh) :
  1 <= DirectMatrix_ARRAY_ROWS g <= 255 ->
  refresh_inv g st -> refresh_inv g (advance g st).
Proof.
  intros HR (Hrow & Hp & Hm).
  destruct (Z.eq_dec (row st + 1) (DirectMatrix_ARRAY_ROWS g)) as [E|E].
  - destruct st as [r m p]; simpl in *. subst m.
    rewrite advance_next_pass by lia.
    assert (Hq : 0 <= (p + 1) mod 4 < 4) by (apply Z.mod_pos_bound; lia).
    repeat split; simpl; lia.
  - rewrite advance_same_pass by lia. repeat split; simpl; lia.
Qed.

Lemma refresh_init_inv (g : globals) :
  1 <= DirectMatrix_ARRAY_ROWS g -> refresh_inv g refresh_init.
Proof. intros H. repeat split; simpl; lia. Qed.

Lemma advance_n_inv (g : globals) (n : nat) :
  1 <= DirectMatrix_ARRAY_ROWS g <= 255 ->
  forall st, refresh_inv g st -> refresh_inv g (advance_n g n st).
Proof.
  intros HR. induction n as [|n IH]; intros st Hst; simpl; auto.
  apply IH. now apply advance_inv.
Qed.

Lemma refresh_inv_mask (g : globals) (st : refresh) :
  refresh_inv g st -> In (pwm st) [1; 2; 4; 8].
Proof.
  intros (_ & Hp & ->).
  assert (Hcases : isr_freq_offset st = 0 \/ isr_freq_offset st = 1 \/
                   isr_freq_offset st = 2 \/ isr_freq_offset st = 3) by lia.
  destruct Hcases as [-> | [-> | [-> | ->]]]; simpl; auto.
Qed.

(** [n] invocations always return, with the log of [isr_log]. *)
Lemma run_isr_total (g : globals) (fuel : nat) :
  isr_dims g -> (127 < fuel)%nat ->
  forall n st,
    run_isr fuel g n st = Some (advance_n g n st, isr_log g n st).
Proof.
  intros Hd Hfuel. induction n as [|n IH]; intros st; simpl.
  - reflexivity.
  - rewrite DirectMatrix_RefreshPWMLine_total by assumption.
    now rewrite IH.
Qed.

Lemma isr_log_inv (g : globals) (n : nat) :
  1 <= DirectMatrix_ARRAY_ROWS g <= 255 ->
  forall st, refresh_inv g st ->
    Forall (fun e => refresh_inv g (fst e) /\ snd e = isr_events g (fst e))
      (isr_log g n st).
Proof.
  intros HR. induction n as [|n IH]; intros st Hst; simpl; constructor.
  - split; auto.
  - apply IH. now apply advance_inv.
Qed.
(** ** The passes of a frame *)

Lemma advance_n_succ_r (g : globals) (n : nat) :
  forall st, advance_n g (Datatypes.S n) st = advance g (advance_n g n st).
Proof.
  induction n as [|n IH]; intros st; [reflexivity|].
  change (advance_n g (Datatypes.S (Datatypes.S n)) st)
    with (advance_n g (Datatypes.S n) (advance g st)).
  rewrite IH. reflexivity.
Qed.

Lemma advance_n_add (g : globals) (n m : nat) :
  forall st, advance_n g (n + m) st = advance_n g m (advance_n g n st).
Proof. induction n as [|n IH]; intros st; simpl; auto. Qed.

Lemma isr_log_app (g : globals) (n m : nat) :
  forall st,
    isr_log g (n + m) st = isr_log g n st ++ isr_log g m (advance_n g n st).
Proof.
  induction n as [|n IH]; intros st; simpl; [reflexivity|].
  now rewrite IH.
Qed.

Lemma advance_n_within_pass (g : globals) (m p : Z) (n : nat) :
  DirectMatrix_ARRAY_ROWS g <= 255 ->
  forall lo,
    0 <= lo -> lo + Z.of_nat n < DirectMatrix_ARRAY_ROWS g ->
    advance_n g n (mkRefresh lo m p) = mkRefresh (lo + Z.of_nat n) m p.
Proof.
  intros HR. induction n as [|n IH]; intros lo H0 H1; simpl advance_n.
  - f_equal. simpl. lia.
  - rewrite advance_same_pass by (simpl; lia). simpl.
    rewrite IH by lia. f_equal. lia.
Qed.

Lemma isr_log_within_pass (g : globals) (m p : Z) (n : nat) :
  DirectMatrix_ARRAY_ROWS g <= 255 ->
  forall lo,
    0 <= lo -> lo + Z.of_nat n <= DirectMatrix_ARRAY_ROWS g ->
    isr_log g n (mkRefresh lo m p) = pass_log g m p lo n.
Proof.
  intros HR. unfold pass_log.
  induction n as [|n IH]; intros lo H0 H1; simpl; [reflexivity|].
  f_equal. destruct n as [|n]; [reflexivity|].
  rewrite advance_same_pass by (simpl; lia). simpl row.
  apply IH; lia.
Qed.

(** A whole pass at period index [p] leads to the first row of the next
    plane. *)
Lemma advance_n_pass (g : globals) (p : Z) :
  1 <= DirectMatrix_ARRAY_ROWS g <= 255 -> 0 <= p < 4 ->
  advance_n g (Z.to_nat (DirectMatrix_ARRAY_ROWS g))
    (mkRefresh 0 (Z.shiftl 1 p) p) =
  mkRefresh 0 (Z.shiftl 1 ((p + 1) mod 4)) ((p + 1) mod 4).
Proof.
  intros HR Hp.
  replace (Z.to_nat (DirectMatrix_ARRAY_ROWS g))
    with (Datatypes.S (Z.to_nat (DirectMatrix_ARRAY_ROWS g - 1))) by lia.
  rewrite advance_n_succ_r, advance_n_within_pass by lia.
  apply advance_next_pass; lia.
Qed.

(** The log of a frame is the four passes, planes 0 to 3 in order, and the
    statics are back at their initial values afterwards. *)
Lemma frame_log (g : globals) :
  0 <= DirectMatrix_ARRAY_ROWS g <= 255 ->
  let R := Z.to_nat (DirectMatrix_ARRAY_ROWS g) in
  isr_log g (4 * R) refresh_init =
    pass_log g 1 0 0 R ++ pass_log g 2 1 0 R ++ pass_log g 4 2 0 R
      ++ pass_log g 8 3 0 R
  /\ advance_n g (4 * R) refresh_init = refresh_init.
Proof.
  intros HR R.
  destruct (Z.eq_dec (DirectMatrix_ARRAY_ROWS g) 0) as [E|E].
  - subst R. rewrite E. simpl. auto.
  - assert (HR1 : 1 <= DirectMatrix_ARRAY_ROWS g <= 255) by lia.
    replace (4 * R)%nat with (R + (R + (R + R)))%nat by lia.
    rewrite !isr_log_app, !advance_n_add. subst R.
    change refresh_init with (mkRefresh 0 (Z.shiftl 1 0) 0).
    rewrite (advance_n_pass g 0) by lia.
    change ((0 + 1) mod 4) with 1.
    rewrite (advance_n_pass g 1) by lia.
    change ((1 + 1) mod 4) with 2.
    rewrite (advance_n_pass g 2) by lia.
    change ((2 + 1) mod 4) with 3.
    rewrite (advance_n_pass g 3) by lia.
    rewrite !isr_log_within_pass by lia.
    split; reflexivity.
Qed.
(** ** [begin] returns, with the events of [begin_events] *)

Lemma iter_opt_append (f : Z -> list event) (l : list Z) :
  forall tr,
    iter_opt (fun i tr => Some (tr ++ f i)) l tr = Some (tr ++ flat_map f l).
Proof.
  induction l as [|i l IH]; intros tr; simpl.
  - now rewrite app_nil_r.
  - rewrite IH. now rewrite <- app_assoc.
Qed.

Lemma preclock_total (o : object) (tr : list event) (fuel : nat) :
  0 <= _num_rows o <= 254 -> (256 < fuel)%nat ->
  preclock fuel o tr = Some (tr ++ preclock_events o).
Proof.
  intros HR Hfuel. unfold preclock.
  rewrite (for_loop_counted _ _ _ (Z.to_nat (_num_rows o + 1))).
  - apply (iter_opt_append
             (fun i => [DigitalWrite (SRPin CLK) LOW;
                        DigitalWrite (SRPin DATA) (level_of (Z.land i 1));
                        DigitalWrite (SRPin CLK) HIGH])).
  - intros k Hk. split; [apply Z.leb_le; lia | apply uint8_small; lia].
  - apply Z.leb_gt. lia.
  - lia.
Qed.

Lemma begin_total (o : object) (g : globals) (sr_pins : Z -> Z)
    (ISR_freq : Z) (fuel : nat) :
  0 <= _num_rows o <= 254 -> 0 <= _num_cols o <= 255 -> (256 < fuel)%nat ->
  begin fuel o g sr_pins ISR_freq =
  Some (begin_globals g sr_pins ISR_freq, begin_events o sr_pins ISR_freq).
Proof.
  intros HR HC Hfuel. unfold begin.
  rewrite (for_loop_counted _ _ _ (Z.to_nat (_num_rows o)));
    [ | intros k Hk; split; [apply Z.ltb_lt; lia | apply uint8_small; lia]
      | apply Z.ltb_ge; lia | lia ].
  rewrite (iter_opt_append
             (fun i => [PinMode (RowPin i); DigitalWrite (RowPin i) HIGH])).
  rewrite (for_loop_counted _ _ _ (Z.to_nat (_num_cols o)));
    [ | intros k Hk; split; [apply Z.ltb_lt; lia | apply uint8_small; lia]
      | apply Z.ltb_ge; lia | lia ].
  rewrite (iter_opt_append
             (fun i => [PinMode (ColPin i); DigitalWrite (ColPin i) LOW])).
  rewrite (for_loop_counted _ _ _ 3%nat);
    [ | intros k Hk; split; [apply Z.ltb_lt; lia | apply uint8_small; lia]
      | reflexivity | lia ].
  erewrite iter_opt_ext.
  - rewrite (iter_opt_append (sr_setup_events o sr_pins)).
    unfold begin_events, begin_globals, row_setup_events, col_setup_events.
    simpl nth. now rewrite <- !app_assoc.
  - intros pin tr. unfold sr_setup_events.
    destruct (sr_pins pin =? 255).
    + now rewrite app_nil_r.
    + rewrite preclock_total by assumption. now rewrite <- !app_assoc.
Qed.
(** ** Classification of the events of an invocation *)

Lemma Forall_flat_map {A B : Type} (P : B -> Prop) (f : A -> list B)
    (l : list A) :
  (forall x, In x l -> Forall P (f x)) -> Forall P (flat_map f l).
Proof.
  induction l as [|x l IH]; intros H; simpl.
  - constructor.
  - apply Forall_app. split; [apply H; now left|].
    apply IH. intros y Hy. apply H. now right.
Qed.

Lemma plane_events_column_write (g : globals) (r i ps off : Z) :
  Forall (fun e => column_write e = true) (plane_events_at g r i ps off).
Proof.
  unfold plane_events_at. destruct (DirectMatrix_SR_PINS g i =? DINV).
  - unfold direct_events. apply Forall_map, Forall_forall. reflexivity.
  - repeat (apply Forall_app; split).
    + repeat constructor.
    + unfold shifted_events. apply Forall_flat_map. intros.
      repeat constructor.
    + repeat constructor.
Qed.

Lemma column_events_column_write (g : globals) (st : refresh) :
  Forall (fun e => column_write e = true) (column_events g st).
Proof.
  unfold column_events. apply Forall_flat_map. intros i _.
  apply plane_events_column_write.
Qed.

Lemma set_periods_app (a b : list event) :
  set_periods (a ++ b) = set_periods a ++ set_periods b.
Proof.
  induction a as [|e a IH]; simpl; [reflexivity|].
  destruct e; simpl; rewrite IH; reflexivity.
Qed.

Lemma set_periods_column_writes (l : list event) :
  Forall (fun e => column_write e = true) l -> set_periods l = [].
Proof.
  induction 1 as [|e l He _ IH]; simpl; [reflexivity|].
  destruct e; simpl in He; try discriminate. exact IH.
Qed.

Lemma set_periods_isr_events (g : globals) (st : refresh) :
  set_periods (isr_events g st) =
  if row st =? 0 then
    [nth (Z.to_nat (isr_freq_offset st)) (DirectMatrix_ISR_FREQ g) 0]
  else [].
Proof.
  unfold isr_events, period_events.
  rewrite !set_periods_app,
    (set_periods_column_writes _ (column_events_column_write g st)).
  destruct (row st =? 0); reflexivity.
Qed.

Lemma pass_log_cons (g : globals) (m p lo : Z) (n : nat) :
  pass_log g m p lo (Datatypes.S n) =
  (mkRefresh lo m p, isr_events g (mkRefresh lo m p))
    :: pass_log g m p (lo + 1) n.
Proof. reflexivity. Qed.

Lemma events_of_cons (st : refresh) (ev : list event)
    (log : list (refresh * list event)) :
  events_of ((st, ev) :: log) = ev ++ events_of log.
Proof. reflexivity. Qed.

Lemma set_periods_later_rows (g : globals) (m p : Z) (n : nat) :
  forall lo, 1 <= lo -> set_periods (events_of (pass_log g m p lo n)) = [].
Proof.
  induction n as [|n IH]; intros lo Hlo; [reflexivity|].
  rewrite pass_log_cons, events_of_cons, set_periods_app,
    set_periods_isr_events, IH by lia.
  cbn [row]. destruct (Z.eqb_spec lo 0); [lia | reflexivity].
Qed.

Lemma set_periods_pass (g : globals) (m p : Z) (n : nat) :
  set_periods (events_of (pass_log g m p 0 (Datatypes.S n))) =
  [nth (Z.to_nat p) (DirectMatrix_ISR_FREQ g) 0].
Proof.
  rewrite pass_log_cons, events_of_cons, set_periods_app,
    set_periods_isr_events, set_periods_later_rows by lia.
  reflexivity.
Qed.

Lemma events_of_app (a b : list (refresh * list event)) :
  events_of (a ++ b) = events_of a ++ events_of b.
Proof. apply flat_map_app. Qed.

(** The period table written by [begin]. *)
Lemma begin_period_table (g : globals) (sr_pins : Z -> Z) (base p : Z) :
  0 <= base < 4294967296 -> 0 <= p < 4 ->
  nth (Z.to_nat p) (DirectMatrix_ISR_FREQ (begin_globals g sr_pins base)) 0 =
  uint32 (Z.shiftl base p).
Proof.
  intros Hb Hp.
  assert (Hcases : p = 0 \/ p = 1 \/ p = 2 \/ p = 3) by lia.
  destruct Hcases as [-> | [-> | [-> | ->]]]; simpl nth; try reflexivity.
  rewrite Z.shiftl_0_r. unfold uint32. now rewrite Z.mod_small.
Qed.

(** C1. Period schedule: [begin] fills the period table with
    [T[i] = base << i] (32-bit unsigned); every invocation of the interrupt
    routine entered with [row = 0] calls [setPeriod] exactly once, with
    [T[0] << p] for the period index [p] of that pass, and an invocation
    entered with another row does not call it; over one frame ([4 * rows]
    invocations from the initial statics) the [setPeriod] calls are exactly
    [T[0]; T[1]; T[2]; T[3]], in that order. *)
Theorem C1_period_schedule (malloc : Z -> option memory) (R C K : Z)
    (sr_pins : Z -> Z) (base : Z) (fuel : nat) (o : object) (g : globals) :
  DirectMatrix_new malloc R C K = Some (o, g) ->
  1 <= R <= 254 -> 0 <= C <= 127 -> 0 <= K <= 127 ->
  0 <= base < 4294967296 -> (256 < fuel)%nat ->
  exists g' tr0,
    begin fuel o g sr_pins base = Some (g', tr0) /\
    (forall i, 0 <= i < 4 ->
       nth (Z.to_nat i) (DirectMatrix_ISR_FREQ g') 0 =
       uint32 (Z.shiftl base i)) /\
    (forall n, exists st log,
       run_isr fuel g' n refresh_init = Some (st, log) /\
       Forall (fun e =>
                 set_periods (snd e) =
                 if row (fst e) =? 0 then
                   [uint32 (Z.shiftl (nth 0 (DirectMatrix_ISR_FREQ g') 0)
                              (isr_freq_offset (fst e)))]
                 else []) log) /\
    (exists st log,
       run_isr fuel g' (4 * Z.to_nat R) refresh_init = Some (st, log) /\
       set_periods (events_of log) =
       [nth 0 (DirectMatrix_ISR_FREQ g') 0; nth 1 (DirectMatrix_ISR_FREQ g') 0;
        nth 2 (DirectMatrix_ISR_FREQ g') 0;
        nth 3 (DirectMatrix_ISR_FREQ g') 0]).
Proof.
  intros Hnew HR HC HK Hb Hfuel.
  unfold DirectMatrix_new in Hnew.
  destruct (malloc (R * C * 2)) as [m|]; [|discriminate].
  injection Hnew as <- <-.
  set (g0 := mkGlobals R C K m (fun _ => 0) [0; 0; 0; 0]).
  exists (begin_globals g0 sr_pins base),
    (begin_events (mkObject R C 0) sr_pins base).
  assert (Hd : isr_dims (begin_globals g0 sr_pins base))
    by (repeat split; simpl; lia).
  split; [apply begin_total; simpl; lia|].
  split; [intros i Hi; now apply begin_period_table|].
  split.
  - intros n. eexists _, _. split; [apply run_isr_total; [exact Hd | lia]|].
    eapply Forall_impl;
      [|apply isr_log_inv; [simpl; lia | apply refresh_init_inv; simpl; lia]].
    intros [st ev] [(_ & Hp & _) Hev]. simpl in *. subst ev.
    rewrite set_periods_isr_events.
    destruct (row st =? 0); [|reflexivity].
    rewrite begin_period_table by assumption. reflexivity.
  - eexists _, _. split; [apply run_isr_total; [exact Hd | lia]|].
    destruct (frame_log (begin_globals g0 sr_pins base)) as [Hlog _];
      [simpl; lia|].
    change (DirectMatrix_ARRAY_ROWS (begin_globals g0 sr_pins base)) with R
      in Hlog.
    rewrite Hlog.
    replace (Z.to_nat R) with (Datatypes.S (Z.to_nat (R - 1))) by lia.
    rewrite !events_of_app, !set_periods_app, !set_periods_pass.
    reflexivity.
Qed.
(** ** Counting row enables *)

Lemma count_enables_app (r : Z) (a b : list event) :
  count_enables r (a ++ b) = (count_enables r a + count_enables r b)%nat.
Proof. unfold count_enables. now rewrite filter_app, length_app. Qed.

Lemma count_enables_column_writes (r : Z) (l : list event) :
  Forall (fun e => column_write e = true) l -> count_enables r l = 0%nat.
Proof.
  unfold count_enables.
  induction 1 as [|e l He _ IH]; simpl; [reflexivity|].
  destruct e as [q|[i|i|i] lv| | |]; simpl in He; try discriminate;
    simpl; exact IH.
Qed.

Lemma count_enables_isr_events (g : globals) (st : refresh) (r : Z) :
  count_enables r (isr_events g st) = if row st =? r then 1%nat else 0%nat.
Proof.
  unfold isr_events. rewrite !count_enables_app.
  rewrite (count_enables_column_writes r _ (column_events_column_write g st)).
  unfold period_events, count_enables.
  destruct (row st =? 0); simpl; destruct (row st =? r); reflexivity.
Qed.

Lemma count_enables_pass (g : globals) (m p r : Z) (n : nat) :
  forall lo,
    count_enables r (events_of (pass_log g m p lo n)) =
    if (lo <=? r) && (r <? lo + Z.of_nat n) then 1%nat else 0%nat.
Proof.
  induction n as [|n IH]; intros lo.
  - simpl. destruct (Z.leb_spec lo r), (Z.ltb_spec r (lo + 0));
      simpl; auto; lia.
  - rewrite pass_log_cons, events_of_cons, count_enables_app,
      count_enables_isr_events, IH.
    cbn [row].
    destruct (Z.eqb_spec lo r), (Z.leb_spec (lo + 1) r),
      (Z.ltb_spec r (lo + 1 + Z.of_nat n)), (Z.leb_spec lo r),
      (Z.ltb_spec r (lo + Z.of_nat (Datatypes.S n)));
      simpl; auto; lia.
Qed.

Lemma in_plane_app (q : Z) (a b : list (refresh * list event)) :
  in_plane q (a ++ b) = in_plane q a ++ in_plane q b.
Proof. apply filter_app. Qed.

Lemma in_plane_pass (g : globals) (m p q : Z) (n : nat) :
  forall lo,
    in_plane q (pass_log g m p lo n) =
    if (p =? q) && (m =? Z.shiftl 1 q) then pass_log g m p lo n else [].
Proof.
  induction n as [|n IH]; intros lo.
  - simpl. now destruct ((p =? q) && (m =? Z.shiftl 1 q)).
  - rewrite pass_log_cons. unfold in_plane in *.
    cbn [filter fst pwm isr_freq_offset].
    rewrite IH. now destruct ((p =? q) && (m =? Z.shiftl 1 q)).
Qed.

(** C3. Frame coverage: the [4 * rows] invocations of a frame, started from
    the initial statics, all return; in their events every row pin
    [r < rows] is driven to the enabled level exactly four times, and
    exactly once among the invocations of each bit plane [p < 4]. *)
Theorem C3_frame_coverage (g : globals) (fuel : nat) :
  isr_dims g -> (127 < fuel)%nat ->
  exists st log,
    run_isr fuel g (4 * Z.to_nat (DirectMatrix_ARRAY_ROWS g)) refresh_init
      = Some (st, log) /\
    length log = (4 * Z.to_nat (DirectMatrix_ARRAY_ROWS g))%nat /\
    forall r, 0 <= r < DirectMatrix_ARRAY_ROWS g ->
      count_enables r (events_of log) = 4%nat /\
      forall p, 0 <= p < 4 ->
        count_enables r (events_of (in_plane p log)) = 1%nat.
Proof.
  intros Hd Hfuel. eexists _, _.
  split; [apply run_isr_total; assumption|].
  destruct Hd as (HR & _ & _).
  destruct (frame_log g HR) as [-> _].
  split.
  - unfold pass_log. rewrite !length_app, !length_map, !zrange_length. lia.
  - intros r Hr. split.
    + rewrite !events_of_app, !count_enables_app, !count_enables_pass.
      destruct (Z.leb_spec 0 r),
        (Z.ltb_spec r (0 + Z.of_nat (Z.to_nat (DirectMatrix_ARRAY_ROWS g))));
        simpl; lia.
    + intros p Hp. rewrite !in_plane_app, !in_plane_pass.
      assert (Hcases : p = 0 \/ p = 1 \/ p = 2 \/ p = 3) by lia.
      destruct Hcases as [-> | [-> | [-> | ->]]]; simpl;
        rewrite ?app_nil_r, count_enables_pass;
        destruct (Z.leb_spec 0 r),
          (Z.ltb_spec r (0 + Z.of_nat (Z.to_nat (DirectMatrix_ARRAY_ROWS g))));
        simpl; lia.
Qed.

(** C4 (amended). Refresh-state invariant: after any number of invocations
    from the initial statics the plane mask is [1 << plane_index] (not
    [1 << (2 * plane_index)]), the row is in [0, rows), the mask is one of
    1, 2, 4, 8 and the index is in [0, 4); the next invocation keeps mask
    and index while the row does not wrap, and on a row wrap doubles the
    mask and increments the index, or resets them to 1 and 0 when the
    doubled mask reaches 16. *)
Theorem C4_refresh_invariant (g : globals) (fuel n : nat) :
  isr_dims g -> 1 <= DirectMatrix_ARRAY_ROWS g -> (127 < fuel)%nat ->
  exists st log,
    run_isr fuel g n refresh_init = Some (st, log) /\
    pwm st = Z.shiftl 1 (isr_freq_offset st) /\
    0 <= row st < DirectMatrix_ARRAY_ROWS g /\
    In (pwm st) [1; 2; 4; 8] /\
    0 <= isr_freq_offset st < 4 /\
    exists ev,
      DirectMatrix_RefreshPWMLine fuel g st =
      Some (if row st + 1 <? DirectMatrix_ARRAY_ROWS g then
              mkRefresh (row st + 1) (pwm st) (isr_freq_offset st)
            else if 16 <=? 2 * pwm st then mkRefresh 0 1 0
            else mkRefresh 0 (2 * pwm st) (isr_freq_offset st + 1),
            ev).
Proof.
  intros Hd HR Hfuel. eexists _, _.
  split; [apply run_isr_total; assumption|].
  assert (Hinv : refresh_inv g (advance_n g n refresh_init)).
  { destruct Hd as (? & _ & _).
    apply advance_n_inv; [lia | now apply refresh_init_inv]. }
  pose proof (refresh_inv_mask g _ Hinv) as Hm.
  destruct Hinv as (Hrow & Hp & Hpwm).
  repeat (split; [assumption || lia|]).
  eexists. rewrite DirectMatrix_RefreshPWMLine_total by assumption.
  f_equal. f_equal.
  destruct Hd as (? & _ & _).
  destruct (Z.ltb_spec (row (advance_n g n refresh_init) + 1)
              (DirectMatrix_ARRAY_ROWS g)).
  - apply advance_same_pass; lia.
  - destruct (advance_n g n refresh_init) as [r m p]. simpl in *. subst m.
    rewrite advance_next_pass by lia.
    assert (Hcases : p = 0 \/ p = 1 \/ p = 2 \/ p = 3) by lia.
    destruct Hcases as [-> | [-> | [-> | ->]]]; reflexivity.
Qed.
(** ** Column pins and plane masks in closed form *)

Lemma offset_at_small (g : globals) (n : nat) :
  0 <= DirectMatrix_ARRAY_COLS g ->
  Z.of_nat n * DirectMatrix_ARRAY_COLS g <= 127 ->
  offset_at g (Z.of_nat n) = Z.of_nat n * DirectMatrix_ARRAY_COLS g.
Proof.
  intros HC. induction n as [|n IH]; intros Hn; [reflexivity|].
  replace (Z.of_nat (Datatypes.S n)) with (Z.of_nat n + 1) in * by lia.
  rewrite offset_at_succ, IH by nia. rewrite int8_small by nia. lia.
Qed.

Lemma mask_at_closed (m : Z) (n : nat) :
  0 <= m < 65536 ->
  mask_at m (Z.of_nat n) = uint16 (Z.shiftl m (4 * Z.of_nat n)).
Proof.
  intros Hm. induction n as [|n IH].
  - simpl. unfold uint16. now rewrite Z.mod_small.
  - replace (Z.of_nat (Datatypes.S n)) with (Z.of_nat n + 1) by lia.
    rewrite mask_at_succ, IH by lia. unfold uint16.
    replace (4 * (Z.of_nat n + 1)) with (4 * Z.of_nat n + 4) by lia.
    rewrite <- Z.shiftl_shiftl by lia.
    rewrite !(Z.shiftl_mul_pow2 _ 4) by lia.
    now rewrite Z.mul_mod_idemp_l.
Qed.

Lemma land_uint16 (a b : Z) :
  0 <= a < 65536 -> Z.land a (uint16 b) = Z.land a b.
Proof.
  intros Ha. unfold uint16. change 65536 with (2 ^ 16).
  rewrite <- (Z.land_ones b 16) by lia.
  rewrite (Z.land_comm b), Z.land_assoc, Z.land_ones by lia.
  change (2 ^ 16) with 65536. now rewrite Z.mod_small.
Qed.

Lemma in_direct_events (g : globals) (r ps off k : Z) (l : level) :
  0 <= DirectMatrix_ARRAY_COLS g ->
  In (DigitalWrite (ColPin k) l) (direct_events g r ps off) <->
  exists c, 0 <= c < DirectMatrix_ARRAY_COLS g /\ k = c + off /\
            l = cell_level g r c ps.
Proof.
  intros HC. unfold direct_events, columns_of. rewrite in_map_iff. split.
  - intros (c & E & Hin). apply in_zrange in Hin. injection E as <- <-.
    exists c. repeat split; lia.
  - intros (c & Hc & -> & ->). exists c. split; [reflexivity|].
    apply in_zrange. lia.
Qed.

Lemma in_plane_events_at (g : globals) (r i ps off k : Z) (l : level) :
  0 <= DirectMatrix_ARRAY_COLS g ->
  In (DigitalWrite (ColPin k) l) (plane_events_at g r i ps off) <->
  DirectMatrix_SR_PINS g i = DINV /\
  exists c, 0 <= c < DirectMatrix_ARRAY_COLS g /\ k = c + off /\
            l = cell_level g r c ps.
Proof.
  intros HC. unfold plane_events_at.
  destruct (Z.eqb_spec (DirectMatrix_SR_PINS g i) DINV) as [E|E].
  - rewrite in_direct_events by assumption. tauto.
  - split; [|tauto]. intros Hin. exfalso.
    apply in_app_or in Hin. destruct Hin as [[Hin|[]]|Hin]; [discriminate|].
    apply in_app_or in Hin. destruct Hin as [Hin|[Hin|[]]]; [|discriminate].
    unfold shifted_events in Hin. apply in_flat_map in Hin.
    destruct Hin as (c & _ & [H|[H|[H|[]]]]); discriminate.
Qed.

(** The writes to column pins in one invocation. *)
Lemma in_isr_events_column (g : globals) (st : refresh) (k : Z) (l : level) :
  0 <= DirectMatrix_ARRAY_COLS g -> 0 <= DirectMatrix_NUM_COLORS g ->
  In (DigitalWrite (ColPin k) l) (isr_events g st) <->
  exists j c,
    0 <= j < DirectMatrix_NUM_COLORS g /\
    0 <= c < DirectMatrix_ARRAY_COLS g /\
    DirectMatrix_SR_PINS g j = DINV /\
    k = c + offset_at g j /\
    l = cell_level g (row st) c (mask_at (pwm st) j).
Proof.
  intros HC HK. unfold isr_events, period_events, column_events.
  rewrite !in_app_iff. split.
  - intros [Hin|[Hin|[Hin|Hin]]].
    + destruct (row st =? 0); [destruct Hin as [H|[]]; discriminate|
                               destruct Hin].
    + destruct Hin as [H|[]]; discriminate.
    + apply in_flat_map in Hin. destruct Hin as (j & Hj & Hin).
      apply in_zrange in Hj. unfold plane_events in Hin.
      apply in_plane_events_at in Hin; [|assumption].
      destruct Hin as (E & c & Hc & -> & ->).
      exists j, c. repeat split; auto; lia.
    + destruct Hin as [H|[]]; discriminate.
  - intros (j & c & Hj & Hc & E & -> & ->).
    right. right. left.
    apply in_flat_map. exists j. split; [apply in_zrange; lia|].
    unfold plane_events. apply in_plane_events_at; [assumption|].
    split; [assumption|]. exists c. auto.
Qed.

(** X18. Column emission while [col_pin_offset] does not wrap, that is for
    [(colours - 1) * cols <= 127]: an invocation entered with row [r] and
    plane mask [m] returns, and for a colour [i] without shift register and a
    column [c] its events drive column pin [i * cols + c] HIGH exactly when
    [cell[r, c] & (m << 4*i)] is non-zero and LOW exactly when it is zero;
    that mask is the single bit [1 << (4*i + b)] for the BCM bit [b] of the
    pass. *)
Theorem column_emission_in_range (g : globals) (st : refresh) (fuel : nat)
    (i c : Z) :
  isr_dims g -> refresh_inv g st ->
  (DirectMatrix_NUM_COLORS g - 1) * DirectMatrix_ARRAY_COLS g <= 127 ->
  0 <= i < DirectMatrix_NUM_COLORS g ->
  DirectMatrix_SR_PINS g i = DINV ->
  0 <= c < DirectMatrix_ARRAY_COLS g ->
  0 <= DirectMatrix_MATRIX g (row st * DirectMatrix_ARRAY_COLS g + c) < 65536 ->
  (127 < fuel)%nat ->
  exists st' ev,
    DirectMatrix_RefreshPWMLine fuel g st = Some (st', ev) /\
    (In (DigitalWrite (ColPin (i * DirectMatrix_ARRAY_COLS g + c)) HIGH) ev <->
     Z.land (DirectMatrix_MATRIX g (row st * DirectMatrix_ARRAY_COLS g + c))
       (Z.shiftl (pwm st) (4 * i)) <> 0) /\
    (In (DigitalWrite (ColPin (i * DirectMatrix_ARRAY_COLS g + c)) LOW) ev <->
     Z.land (DirectMatrix_MATRIX g (row st * DirectMatrix_ARRAY_COLS g + c))
       (Z.shiftl (pwm st) (4 * i)) = 0) /\
    Z.shiftl (pwm st) (4 * i) = Z.shiftl 1 (4 * i + isr_freq_offset st).
Proof.
  intros Hd Hinv HKC Hi Hsr Hc Hcell Hfuel.
  pose proof Hd as (HR & HC & HK).
  eexists _, _. split; [now apply DirectMatrix_RefreshPWMLine_total|].
  pose proof (refresh_inv_mask g st Hinv) as Hm.
  assert (Hm16 : 0 <= pwm st < 65536)
    by (simpl in Hm; decompose [or] Hm; try contradiction; lia).
  assert (Hlevel : forall l,
    In (DigitalWrite (ColPin (i * DirectMatrix_ARRAY_COLS g + c)) l)
      (isr_events g st) <->
    l = level_of
          (Z.land
             (DirectMatrix_MATRIX g (row st * DirectMatrix_ARRAY_COLS g + c))
             (Z.shiftl (pwm st) (4 * i)))).
  { intros l. rewrite in_isr_events_column by lia.
    assert (Hoff : forall j, 0 <= j < DirectMatrix_NUM_COLORS g ->
              offset_at g j = j * DirectMatrix_ARRAY_COLS g).
    { intros j Hj. rewrite <- (Z2Nat.id j) by lia.
      apply offset_at_small; [lia|]. rewrite Z2Nat.id by lia. nia. }
    assert (Hmask : cell_level g (row st) c (mask_at (pwm st) i) =
              level_of
                (Z.land
                   (DirectMatrix_MATRIX g
                      (row st * DirectMatrix_ARRAY_COLS g + c))
                   (Z.shiftl (pwm st) (4 * i)))).
    { unfold cell_level. rewrite <- (Z2Nat.id i) at 1 by lia.
      rewrite mask_at_closed, Z2Nat.id, land_uint16 by lia. reflexivity. }
    split.
    - intros (j & c' & Hj & Hc' & _ & E & ->). rewrite Hoff in E by assumption.
      assert (j = i) by nia. subst j. assert (c' = c) by lia. subst c'.
      exact Hmask.
    - intros ->. exists i, c. rewrite Hoff by assumption.
      repeat split; auto; lia. }
  split; [|split].
  - rewrite Hlevel. unfold level_of.
    destruct (Z.eqb_spec
      (Z.land (DirectMatrix_MATRIX g (row st * DirectMatrix_ARRAY_COLS g + c))
         (Z.shiftl (pwm st) (4 * i))) 0); split; congruence.
  - rewrite Hlevel. unfold level_of.
    destruct (Z.eqb_spec
      (Z.land (DirectMatrix_MATRIX g (row st * DirectMatrix_ARRAY_COLS g + c))
         (Z.shiftl (pwm st) (4 * i))) 0); split; congruence.
  - destruct Hinv as (_ & Hp & ->).
    rewrite Z.shiftl_shiftl by lia. f_equal. lia.
Qed.
(** ** Row exclusivity *)

Lemma pins_after_app (s : pins) (a b : list event) :
  pins_after s (a ++ b) = pins_after (pins_after s a) b.
Proof. apply fold_left_app. Qed.

Lemma always_exclusive_nil (s : pins) :
  exclusive s -> always_exclusive s [].
Proof.
  intros H pre suf E. symmetry in E. apply app_eq_nil in E.
  destruct E as [-> _]. exact H.
Qed.

Lemma always_exclusive_cons (s : pins) (e : event) (l : list event) :
  exclusive s -> always_exclusive (write s e) l -> always_exclusive s (e :: l).
Proof.
  intros Hs Hl pre suf E. destruct pre as [|x pre]; [exact Hs|].
  injection E as <- E. simpl. now apply (Hl pre suf).
Qed.

Lemma always_exclusive_start (s : pins) (l : list event) :
  always_exclusive s l -> exclusive s.
Proof. intros H. exact (H [] l eq_refl). Qed.

Lemma always_exclusive_app (s : pins) (a b : list event) :
  always_exclusive s a -> always_exclusive (pins_after s a) b ->
  always_exclusive s (a ++ b).
Proof.
  revert s. induction a as [|e a IH]; intros s Ha Hb; [exact Hb|].
  simpl. apply always_exclusive_cons.
  - now apply always_exclusive_start in Ha.
  - apply IH; [|exact Hb]. intros pre suf E.
    apply (Ha (e :: pre) suf). simpl. now rewrite E.
Qed.

Lemma quiet_exclusive (s : pins) : quiet s -> exclusive s.
Proof. intros H i j Hi. now destruct (H i). Qed.

Lemma only_low_exclusive (r : Z) (s : pins) : only_low r s -> exclusive s.
Proof. intros H i j Hi Hj. rewrite (H i Hi), (H j Hj). reflexivity. Qed.

Lemma quiet_only_low (r : Z) (s : pins) : quiet s -> only_low r s.
Proof. intros H i Hi. now destruct (H i). Qed.

Lemma write_quiet (s : pins) (e : event) :
  quiet s -> no_enable e = true -> quiet (write s e).
Proof.
  intros Hs He i. destruct e as [q|[k|k|k] [|]| | |]; simpl in *;
    try apply Hs; try discriminate.
  destruct (i =? k); [discriminate | apply Hs].
Qed.

Lemma quiet_trace (l : list event) :
  Forall (fun e => no_enable e = true) l ->
  forall s, quiet s -> always_exclusive s l /\ quiet (pins_after s l).
Proof.
  induction 1 as [|e l He _ IH]; intros s Hs.
  - split; [apply always_exclusive_nil; now apply quiet_exclusive | exact Hs].
  - destruct (IH (write s e) (write_quiet s e Hs He)) as [Hx Hq].
    split; [|exact Hq].
    apply always_exclusive_cons; [now apply quiet_exclusive | exact Hx].
Qed.

Lemma column_write_no_enable (l : list event) :
  Forall (fun e => column_write e = true) l ->
  Forall (fun e => no_enable e = true) l.
Proof.
  apply Forall_impl. intros [q|[k|k|k] [|]| | |]; simpl; congruence.
Qed.

Lemma write_high_quiet (r : Z) (s : pins) :
  only_low r s -> quiet (write s (DigitalWrite (RowPin r) HIGH)).
Proof.
  intros Hs i. simpl. destruct (Z.eqb_spec i r) as [->|E]; [discriminate|].
  intros Hi. apply E. now apply Hs.
Qed.

Lemma write_low_only (r : Z) (s : pins) :
  quiet s -> only_low r (write s (DigitalWrite (RowPin r) LOW)).
Proof.
  intros Hs i. simpl. destruct (Z.eqb_spec i r) as [->|E]; [reflexivity|].
  intros Hi. now destruct (Hs i).
Qed.

(** One invocation entered with at most the previous row enabled keeps
    the rows exclusive throughout and leaves only its own row enabled. *)
Lemma isr_events_exclusive (g : globals) (st : refresh) (s : pins) :
  only_low (oldrow g st) s ->
  always_exclusive s (isr_events g st) /\
  only_low (row st) (pins_after s (isr_events g st)).
Proof.
  intros Hs. unfold isr_events.
  assert (Hper : always_exclusive s (period_events g st) /\
                 pins_after s (period_events g st) = s).
  { unfold period_events. destruct (row st =? 0); simpl.
    - split; [|reflexivity]. apply always_exclusive_cons;
        [|apply always_exclusive_nil]; now apply only_low_exclusive in Hs.
    - split; [|reflexivity]. apply always_exclusive_nil.
      now apply only_low_exclusive in Hs. }
  destruct Hper as [Hper Es].
  pose proof (write_high_quiet _ _ Hs) as Hq.
  destruct (quiet_trace _
              (column_write_no_enable _ (column_events_column_write g st))
              _ Hq) as [Hcx Hcq].
  pose proof (write_low_only (row st) _ Hcq) as Hlow.
  split.
  - apply always_exclusive_app; [exact Hper|]. rewrite Es.
    simpl. apply always_exclusive_cons; [now apply only_low_exclusive in Hs|].
    apply always_exclusive_app; [exact Hcx|].
    apply always_exclusive_cons; [now apply quiet_exclusive|].
    apply always_exclusive_nil. now apply only_low_exclusive in Hlow.
  - rewrite pins_after_app, Es. simpl. rewrite pins_after_app. exact Hlow.
Qed.

Lemma oldrow_prev (g : globals) (st : refresh) :
  1 <= DirectMatrix_ARRAY_ROWS g <= 128 -> refresh_inv g st ->
  oldrow g st = (row st - 1) mod DirectMatrix_ARRAY_ROWS g.
Proof.
  intros HR (Hrow & _). unfold oldrow.
  destruct (Z.eqb_spec (row st) 0) as [E|E].
  - rewrite E, int8_small by lia.
    apply (Z.mod_unique _ _ (-1)); lia.
  - rewrite int8_small, Z.mod_small by lia. reflexivity.
Qed.

Lemma oldrow_advance (g : globals) (st : refresh) :
  1 <= DirectMatrix_ARRAY_ROWS g <= 128 -> refresh_inv g st ->
  oldrow g (advance g st) = row st.
Proof.
  intros HR Hinv. pose proof Hinv as (Hrow & Hp & Hm).
  destruct (Z.eq_dec (row st + 1) (DirectMatrix_ARRAY_ROWS g)) as [E|E].
  - destruct st as [r m p]; simpl in *. subst m.
    rewrite advance_next_pass by lia. unfold oldrow. simpl.
    rewrite int8_small; lia.
  - rewrite advance_same_pass by lia. unfold oldrow. simpl.
    destruct (Z.eqb_spec (row st + 1) 0); [lia|].
    rewrite int8_small; lia.
Qed.

Lemma isr_log_exclusive (g : globals) (n : nat) :
  1 <= DirectMatrix_ARRAY_ROWS g <= 128 ->
  forall st s,
    refresh_inv g st -> only_low (oldrow g st) s ->
    always_exclusive s (events_of (isr_log g n st)).
Proof.
  intros HR. induction n as [|n IH]; intros st s Hinv Hs.
  - apply always_exclusive_nil. now apply only_low_exclusive in Hs.
  - simpl isr_log. rewrite events_of_cons.
    destruct (isr_events_exclusive g st s Hs) as [Hx Hlow].
    apply always_exclusive_app; [exact Hx|].
    apply IH; [apply advance_inv; [lia | exact Hinv]|].
    now rewrite oldrow_advance.
Qed.
Lemma pins_after_no_row_write (l : list event) (i : Z) :
  Forall (fun e => row_write e = false) l ->
  forall s, pins_after s l (RowPin i) = s (RowPin i).
Proof.
  induction 1 as [|e l He _ IH]; intros s; [reflexivity|].
  simpl. rewrite IH.
  destruct e as [q|[k|k|k] lv| | |]; simpl in *; congruence.
Qed.

Lemma pins_after_row_setup (i : Z) (n : nat) :
  forall lo s,
    pins_after s
      (flat_map (fun k => [PinMode (RowPin k); DigitalWrite (RowPin k) HIGH])
         (zrange lo n)) (RowPin i) =
    if (lo <=? i) && (i <? lo + Z.of_nat n) then Some HIGH else s (RowPin i).
Proof.
  induction n as [|n IH]; intros lo s.
  - simpl. destruct (Z.leb_spec lo i), (Z.ltb_spec i (lo + 0));
      simpl; auto; lia.
  - cbn [zrange flat_map app]. unfold pins_after in *. cbn [fold_left].
    rewrite IH. cbn [write pin_eqb].
    destruct (Z.eqb_spec i lo), (Z.leb_spec (lo + 1) i),
      (Z.ltb_spec i (lo + 1 + Z.of_nat n)), (Z.leb_spec lo i),
      (Z.ltb_spec i (lo + Z.of_nat (Datatypes.S n)));
      simpl; auto; lia.
Qed.

Lemma sr_setup_events_shape (o : object) (sr_pins : Z -> Z) (pin : Z) :
  Forall (fun e => row_write e = false /\ no_enable e = true)
    (sr_setup_events o sr_pins pin).
Proof.
  unfold sr_setup_events. destruct (sr_pins pin =? 255); [constructor|].
  apply Forall_app; split; [|apply Forall_app; split].
  - repeat constructor.
  - unfold preclock_events. apply Forall_flat_map. intros.
    repeat constructor.
  - repeat constructor.
Qed.

Lemma begin_tail_shape (o : object) (sr_pins : Z -> Z) (base : Z) :
  Forall (fun e => row_write e = false /\ no_enable e = true)
    (col_setup_events o ++ flat_map (sr_setup_events o sr_pins) [0; 1; 2]
       ++ [TimerInitialize base; AttachInterrupt]).
Proof.
  apply Forall_app; split; [|apply Forall_app; split].
  - unfold col_setup_events. apply Forall_flat_map. intros.
    repeat constructor.
  - apply Forall_flat_map. intros. apply sr_setup_events_shape.
  - repeat constructor.
Qed.

Lemma begin_events_no_enable (o : object) (sr_pins : Z -> Z) (base : Z) :
  Forall (fun e => no_enable e = true) (begin_events o sr_pins base).
Proof.
  unfold begin_events. apply Forall_app. split.
  - unfold row_setup_events. apply Forall_flat_map. intros.
    repeat constructor.
  - eapply Forall_impl; [|apply begin_tail_shape]. now intros e [_ H].
Qed.

(** [begin] leaves every row pin of the table at HIGH. *)
Lemma begin_rows_high (o : object) (sr_pins : Z -> Z) (base i : Z) :
  0 <= i < _num_rows o ->
  pins_after unwritten (begin_events o sr_pins base) (RowPin i) = Some HIGH.
Proof.
  intros Hi. unfold begin_events. rewrite pins_after_app.
  rewrite pins_after_no_row_write
    by (eapply Forall_impl; [|apply begin_tail_shape]; now intros e [H _]).
  unfold row_setup_events. rewrite pins_after_row_setup.
  destruct (Z.leb_spec 0 i),
    (Z.ltb_spec i (0 + Z.of_nat (Z.to_nat (_num_rows o))));
    simpl; auto; lia.
Qed.

(** X19. Row exclusivity for 1 to 128 rows, the range in which the [int8_t]
    [oldrow] holds [rows - 1]: [begin] returns having driven every row pin
    HIGH,
    any number of invocations of the interrupt routine after it return, and
    at every instant of the resulting sequence of events at most one row pin
    is LOW; each invocation writes, in this order, the previous row
    [(row - 1) mod rows] HIGH, then only column and shift-register pins,
    then its own row LOW, with no GPIO write before the first of these. *)
Theorem row_exclusivity_in_range (malloc : Z -> option memory) (R C K : Z)
    (sr_pins : Z -> Z) (base : Z) (fuel n : nat) (o : object) (g : globals) :
  DirectMatrix_new malloc R C K = Some (o, g) ->
  1 <= R <= 128 -> 0 <= C <= 127 -> 0 <= K <= 127 -> (256 < fuel)%nat ->
  exists g' tr0 st log,
    begin fuel o g sr_pins base = Some (g', tr0) /\
    run_isr fuel g' n refresh_init = Some (st, log) /\
    (forall i, 0 <= i < R -> pins_after unwritten tr0 (RowPin i) = Some HIGH) /\
    (forall pre suf,
       tr0 ++ events_of log = pre ++ suf ->
       exclusive (pins_after unwritten pre)) /\
    Forall (fun e =>
              exists per cols,
                snd e = per ++ [DigitalWrite (RowPin ((row (fst e) - 1) mod R))
                                  HIGH]
                          ++ cols ++ [DigitalWrite (RowPin (row (fst e))) LOW]
                /\ Forall (fun x => gpio_write x = false) per
                /\ Forall (fun x => column_write x = true) cols) log.
Proof.
  intros Hnew HR HC HK Hfuel.
  unfold DirectMatrix_new in Hnew.
  destruct (malloc (R * C * 2)) as [m|]; [|discriminate].
  injection Hnew as <- <-.
  set (o := mkObject R C 0).
  set (g' := begin_globals (mkGlobals R C K m (fun _ => 0) [0; 0; 0; 0])
               sr_pins base).
  assert (Hd : isr_dims g') by (repeat split; simpl; lia).
  assert (HR' : 1 <= DirectMatrix_ARRAY_ROWS g' <= 128) by (simpl; lia).
  exists g', (begin_events o sr_pins base),
    (advance_n g' n refresh_init), (isr_log g' n refresh_init).
  split; [apply begin_total; simpl; lia|].
  split; [apply run_isr_total; [exact Hd | lia]|].
  split; [intros i Hi; now apply begin_rows_high|].
  split.
  - destruct (quiet_trace _ (begin_events_no_enable o sr_pins base) unwritten)
      as [Hx Hq]; [intros i; discriminate|].
    apply (always_exclusive_app unwritten); [exact Hx|].
    apply isr_log_exclusive; [exact HR' | | now apply quiet_only_low].
    apply refresh_init_inv. lia.
  - eapply Forall_impl;
      [|apply isr_log_inv; [lia | apply refresh_init_inv; lia]].
    intros [st ev] [Hinv Hev]. simpl in *. subst ev.
    exists (period_events g' st), (column_events g' st).
    split; [|split].
    + unfold isr_events. now rewrite (oldrow_prev g' st HR' Hinv).
    + unfold period_events. destruct (row st =? 0); repeat constructor.
    + apply column_events_column_write.
Qed.
(** ** The drawing surface *)

Lemma drawPixel_in_bounds (o : object) (g : globals) (x y w : Z) :
  0 <= x < 8 -> 0 <= y < 8 ->
  drawPixel o g x y w =
  with_matrix g
    (store (DirectMatrix_MATRIX g)
       (spec_cell (_num_cols o) (spec_rotate (rotation o) (x, y))) w).
Proof.
  intros Hx Hy. unfold drawPixel.
  destruct (Z.ltb_spec y 0); [lia|]. destruct (Z.geb_spec y 8); [lia|].
  destruct (Z.ltb_spec x 0); [lia|]. destruct (Z.geb_spec x 8); [lia|].
  unfold spec_cell, spec_rotate, spec_swap.
  destruct (rotation o) as [|[[|[]|]|[|[]|]|]|];
    cbv beta iota delta [orb fst snd]; do 3 f_equal; lia.
Qed.

Lemma store_same (m : memory) (i v : Z) : store m i v i = v.
Proof. unfold store. now rewrite Z.eqb_refl. Qed.

Lemma store_other (m : memory) (i j v : Z) : j <> i -> store m i v j = m j.
Proof. intros H. unfold store. now destruct (Z.eqb_spec j i). Qed.

Lemma spec_rotate_in_bounds (r x y : Z) :
  0 <= x < 8 -> 0 <= y < 8 ->
  0 <= fst (spec_rotate r (x, y)) < 8 /\ 0 <= snd (spec_rotate r (x, y)) < 8.
Proof.
  intros Hx Hy. unfold spec_rotate, spec_swap.
  destruct r as [|[[|[]|]|[|[]|]|]|]; cbv beta iota delta [fst snd]; lia.
Qed.

(** C6. Rotation round-trip: on an 8x8 matrix, for a rotation [r] in 0..3
    and an in-bounds [(x, y)], [drawPixel] is the store of [w] at cell
    [y' * 8 + x'] for [(x', y')] given by the rotation formulas of the
    spec, that cell is one of the 64 cells and reads back [w], every other
    cell is unchanged; and the rotation-1 transform applied four times is
    the identity. *)
Theorem C6_rotation_round_trip (o : object) (g : globals) (r x y w : Z) :
  _num_rows o = 8 -> _num_cols o = 8 -> rotation o = r ->
  0 <= r <= 3 -> 0 <= x < 8 -> 0 <= y < 8 ->
  drawPixel o g x y w =
    with_matrix g
      (store (DirectMatrix_MATRIX g) (spec_cell 8 (spec_rotate r (x, y))) w) /\
  0 <= spec_cell 8 (spec_rotate r (x, y)) < 64 /\
  DirectMatrix_MATRIX (drawPixel o g x y w)
    (spec_cell 8 (spec_rotate r (x, y))) = w /\
  (forall i, i <> spec_cell 8 (spec_rotate r (x, y)) ->
     DirectMatrix_MATRIX (drawPixel o g x y w) i = DirectMatrix_MATRIX g i) /\
  spec_rotate 1 (spec_rotate 1 (spec_rotate 1 (spec_rotate 1 (x, y)))) = (x, y).
Proof.
  intros HR HC Hr Hr3 Hx Hy.
  rewrite drawPixel_in_bounds, HC, Hr by assumption.
  destruct (spec_rotate_in_bounds r x y Hx Hy) as [Hx' Hy'].
  split; [reflexivity|]. split; [unfold spec_cell; lia|].
  split; [simpl; apply store_same|].
  split; [intros i Hi; simpl; now apply store_other|].
  unfold spec_rotate, spec_swap. cbv beta iota delta [fst snd]. f_equal; lia.
Qed.

(** C7. Out-of-bounds plot: with [x] or [y] outside [0, 8), whatever the
    word and the rotation, [drawPixel] returns the globals it was given, so
    no framebuffer cell changes. *)
Theorem C7_out_of_bounds_noop (o : object) (g : globals) (x y w : Z) :
  x < 0 \/ 8 <= x \/ y < 0 \/ 8 <= y ->
  drawPixel o g x y w = g.
Proof.
  intros H. unfold drawPixel.
  destruct (Z.ltb_spec y 0); [reflexivity|].
  destruct (Z.geb_spec y 8); [reflexivity|].
  destruct (Z.ltb_spec x 0); [reflexivity|].
  destruct (Z.geb_spec x 8); [reflexivity|].
  lia.
Qed.

(** The corner of the 8x8 plotting area that [spec_rotate r] sends to
    [(7, 7)]. *)
Lemma spec_rotate_corner (r : Z) :
  exists x y, 0 <= x < 8 /\ 0 <= y < 8 /\ spec_rotate r (x, y) = (7, 7).
Proof.
  destruct r as [|[[|[]|]|[|[]|]|]|];
    try (exists 7, 7; repeat split; (lia || reflexivity)).
  - exists 0, 7. repeat split; (lia || reflexivity).
  - exists 0, 0. repeat split; (lia || reflexivity).
  - exists 7, 0. repeat split; (lia || reflexivity).
Qed.

(** C10 (amended). [drawPixel] checks coordinates against 8x8 only: for a
    constructed matrix with [rows * cols <= 7 * cols + 7] (in particular
    whenever [rows < 8], for example 4x4) and any rotation there are [x],
    [y] in [0, 8) that pass the check and whose store goes to the cell
    [y' * cols + x' >= rows * cols] of the rotated position, past the end
    of the allocated block of [rows * cols] cells. *)
Theorem C10_plot_past_framebuffer (malloc : Z -> option memory)
    (R C K rot : Z) (o : object) (g : globals) :
  DirectMatrix_new malloc R C K = Some (o, g) ->
  0 <= C -> R * C <= 7 * C + 7 ->
  exists x y,
    0 <= x < 8 /\ 0 <= y < 8 /\
    R * C <= spec_cell C (spec_rotate rot (x, y)) /\
    forall w,
      drawPixel (mkObject (_num_rows o) (_num_cols o) rot) g x y w =
      with_matrix g
        (store (DirectMatrix_MATRIX g)
           (spec_cell C (spec_rotate rot (x, y))) w) /\
      DirectMatrix_MATRIX
        (drawPixel (mkObject (_num_rows o) (_num_cols o) rot) g x y w)
        (spec_cell C (spec_rotate rot (x, y))) = w.
Proof.
  intros Hnew HC Hsmall. unfold DirectMatrix_new in Hnew.
  destruct (malloc (R * C * 2)) as [m|]; [|discriminate].
  injection Hnew as <- <-. simpl _num_rows. simpl _num_cols.
  destruct (spec_rotate_corner rot) as (x & y & Hx & Hy & E).
  exists x, y. rewrite E. unfold spec_cell at 1. simpl fst. simpl snd.
  repeat split; try lia.
  - rewrite drawPixel_in_bounds by assumption. simpl. now rewrite E.
  - rewrite drawPixel_in_bounds by assumption. simpl. rewrite E.
    apply store_same.
Qed.

(** X1. The bound of C10 is exact: with more cells than [7 * cols + 7] every
    in-bounds plot stays inside the allocated block. *)
Lemma drawPixel_inside (o : object) (g : globals) (R x y w : Z) :
  0 <= _num_cols o -> 7 * _num_cols o + 7 < R * _num_cols o ->
  0 <= x < 8 -> 0 <= y < 8 ->
  exists i,
    0 <= i < R * _num_cols o /\
    drawPixel o g x y w = with_matrix g (store (DirectMatrix_MATRIX g) i w).
Proof.
  intros HC Hbig Hx Hy. eexists. split; [|now apply drawPixel_in_bounds].
  destruct (spec_rotate_in_bounds (rotation o) x y Hx Hy) as [Hx' Hy'].
  unfold spec_cell. nia.
Qed.
(** ** [clear] *)

Lemma iter_opt_store (l : list Z) :
  forall m, iter_opt (fun i m => Some (store m i 0)) l m = Some (zeroed m l).
Proof. induction l as [|i l IH]; intros m; simpl; auto. Qed.

Lemma zeroed_spec (l : list Z) (j : Z) :
  forall m,
    (In j l -> zeroed m l j = 0) /\ (~ In j l -> zeroed m l j = m j).
Proof.
  unfold zeroed. induction l as [|i l IH]; intros m; simpl.
  - tauto.
  - destruct (IH (store m i 0)) as [IHin IHout].
    destruct (in_dec Z.eq_dec j l) as [Hin|Hout].
    + split; [intros _; now apply IHin|].
      intros Hn. exfalso. apply Hn. now right.
    + split.
      * intros [->|Hin]; [|tauto]. rewrite IHout by assumption.
        apply store_same.
      * intros Hn. rewrite IHout by assumption. apply store_other.
        intros ->. apply Hn. now left.
Qed.

(** X2. With at most 255 cells [clear] returns, has zeroed the whole block and
    nothing else, and a second [clear] changes no cell. *)
Lemma clear_small (o : object) (g : globals) (fuel : nat) :
  0 <= _num_rows o * _num_cols o <= 255 -> (256 < fuel)%nat ->
  exists g',
    clear fuel o g = Some g' /\
    (forall i, 0 <= i < _num_rows o * _num_cols o ->
       DirectMatrix_MATRIX g' i = 0) /\
    (forall i, ~ 0 <= i < _num_rows o * _num_cols o ->
       DirectMatrix_MATRIX g' i = DirectMatrix_MATRIX g i) /\
    exists g'',
      clear fuel o g' = Some g'' /\
      forall i, DirectMatrix_MATRIX g'' i = DirectMatrix_MATRIX g' i.
Proof.
  intros Hn Hfuel.
  assert (Hclear : forall g0,
    clear fuel o g0 =
    Some (with_matrix g0
            (zeroed (DirectMatrix_MATRIX g0)
               (zrange 0 (Z.to_nat (_num_rows o * _num_cols o)))))).
  { intros g0. unfold clear.
    rewrite (for_loop_counted _ _ _ (Z.to_nat (_num_rows o * _num_cols o)));
      [ | intros k Hk; split; [apply Z.ltb_lt; lia | apply uint8_small; lia]
        | apply Z.ltb_ge; lia | lia ].
    now rewrite iter_opt_store. }
  assert (Hin : forall i,
    In i (zrange 0 (Z.to_nat (_num_rows o * _num_cols o))) <->
    0 <= i < _num_rows o * _num_cols o)
    by (intros i; rewrite in_zrange; lia).
  eexists. split; [apply Hclear|]. simpl.
  split; [intros i Hi; apply zeroed_spec; now apply Hin|].
  split; [intros i Hi; apply zeroed_spec; now rewrite Hin|].
  eexists. split; [apply Hclear|]. intros i. simpl.
  destruct (in_dec Z.eq_dec i
              (zrange 0 (Z.to_nat (_num_rows o * _num_cols o)))) as [H|H].
  - rewrite !(proj1 (zeroed_spec _ i _) H). reflexivity.
  - now rewrite (proj2 (zeroed_spec _ i _) H).
Qed.

(** With 256 cells or more the [uint8_t] counter never reaches the bound:
    [clear] does not return, whatever the bound on iterations. *)
Lemma clear_diverges (o : object) (g : globals) (fuel : nat) :
  256 <= _num_rows o * _num_cols o -> clear fuel o g = None.
Proof.
  intros Hn. unfold clear.
  rewrite (for_loop_diverges _ _ _ (fun i => 0 <= i <= 255));
    [reflexivity| |lia].
  intros i Hi. split; [apply Z.ltb_lt; lia|].
  unfold uint8. pose proof (Z.mod_pos_bound (i + 1) 256). lia.
Qed.

(** C8. [clear] on a 16x16 matrix: the constructor accepts the dimensions
    and allocates the 512 bytes, but [clear] never returns, whatever the
    bound on the iterations of its loop: the [uint8_t] counter wraps from
    255 to 0 and stays below [16 * 16 = 256]. *)
Theorem C8_clear_never_returns_16x16 (fuel : nat) (m : memory) :
  exists o g,
    DirectMatrix_new (fun _ => Some m) 16 16 1 = Some (o, g) /\
    _num_rows o * _num_cols o = 256 /\
    clear fuel o g = None.
Proof.
  eexists _, _. split; [reflexivity|]. split; [reflexivity|].
  apply clear_diverges. simpl. lia.
Qed.

(** ** The column pins set up by [begin] *)

Lemma not_in_untouched (e : event) (l : list event) :
  Forall (fun x => touches_column x = false) l ->
  touches_column e = true -> ~ In e l.
Proof.
  intros Hl He Hin. rewrite Forall_forall in Hl.
  specialize (Hl e Hin). congruence.
Qed.

Lemma begin_rest_untouched (o : object) (sr_pins : Z -> Z) (base : Z) :
  Forall (fun x => touches_column x = false) (row_setup_events o) /\
  Forall (fun x => touches_column x = false)
    (flat_map (sr_setup_events o sr_pins) [0; 1; 2]
       ++ [TimerInitialize base; AttachInterrupt]).
Proof.
  split.
  - unfold row_setup_events. apply Forall_flat_map. intros.
    repeat constructor.
  - apply Forall_app. split; [|repeat constructor].
    apply Forall_flat_map. intros pin _. unfold sr_setup_events.
    destruct (sr_pins pin =? 255); [constructor|].
    apply Forall_app; split; [|apply Forall_app; split].
    + repeat constructor.
    + unfold preclock_events. apply Forall_flat_map. intros.
      repeat constructor.
    + repeat constructor.
Qed.

(** [begin] touches the column pins [0 .. _num_cols - 1] and no other. *)
Lemma begin_column_pins (o : object) (sr_pins : Z -> Z) (base k : Z) :
  0 <= _num_cols o ->
  (In (PinMode (ColPin k)) (begin_events o sr_pins base) <->
   0 <= k < _num_cols o) /\
  (forall l, In (DigitalWrite (ColPin k) l) (begin_events o sr_pins base) <->
             0 <= k < _num_cols o /\ l = LOW).
Proof.
  intros HC. destruct (begin_rest_untouched o sr_pins base) as [Hrows Hrest].
  assert (Hcols : forall e, touches_column e = true ->
    (In e (begin_events o sr_pins base) <-> In e (col_setup_events o))).
  { intros e He. unfold begin_events. rewrite !in_app_iff.
    pose proof (not_in_untouched e _ Hrows He).
    pose proof (not_in_untouched e _ Hrest He).
    rewrite in_app_iff in *. tauto. }
  split; [|intros l]; rewrite Hcols by reflexivity;
    unfold col_setup_events; rewrite in_flat_map.
  - split.
    + intros (i & Hi & [E|[E|[]]]); [|discriminate].
      injection E as <-. apply in_zrange in Hi. lia.
    + intros Hk. exists k. split; [apply in_zrange; lia | now left].
  - split.
    + intros (i & Hi & [E|[E|[]]]); [discriminate|].
      injection E as <- <-. apply in_zrange in Hi. split; [lia | reflexivity].
    + intros [Hk ->]. exists k. split; [apply in_zrange; lia|].
      right. now left.
Qed.
(** ** Outside the range of the [int8_t] column counter *)

(** X3. With 128 columns or more, [col <= cols - 1] holds for every [int8_t]
    value, so neither column loop ends and the interrupt routine does not
    return. *)
Lemma DirectMatrix_RefreshPWMLine_wide (g : globals) (st : refresh)
    (fuel : nat) :
  128 <= DirectMatrix_ARRAY_COLS g -> 1 <= DirectMatrix_NUM_COLORS g ->
  DirectMatrix_RefreshPWMLine fuel g st = None.
Proof.
  intros HC HK.
  assert (Hcols : forall i, -128 <= i <= 127 ->
    (i <=? DirectMatrix_ARRAY_COLS g - 1) = true /\
    -128 <= int8 (i + 1) <= 127).
  { intros i Hi. split; [apply Z.leb_le; lia|].
    unfold int8. pose proof (Z.mod_pos_bound (i + 1 + 128) 256). lia. }
  assert (Hbody : forall ln, color_body fuel g (row st) 0 ln = None).
  { intros ln. unfold color_body, direct_columns, shifted_columns.
    rewrite !(for_loop_diverges _ _ _ (fun i => -128 <= i <= 127))
      by (assumption || lia).
    now destruct (DirectMatrix_SR_PINS g 0 =? DINV). }
  assert (Hloop : forall ln, color_loop fuel g (row st) ln = None).
  { intros ln. unfold color_loop. destruct fuel as [|fuel']; [reflexivity|].
    cbn [for_loop]. destruct (Z.ltb_spec 0 (DirectMatrix_NUM_COLORS g)); [|lia].
    now rewrite Hbody. }
  unfold DirectMatrix_RefreshPWMLine.
  destruct (row st =? 0); now rewrite Hloop.
Qed.

(** * Further properties of the driver *)

(** ** Observations on traces *)

Lemma pin_eqb_eq (p q : pin) : pin_eqb p q = true <-> p = q.
Proof.
  destruct p as [i|i|i], q as [j|j|j]; simpl;
    try (split; [discriminate | congruence]);
    rewrite Z.eqb_eq; split; congruence.
Qed.

Lemma writes_to_app (p : pin) (a b : list event) :
  writes_to p (a ++ b) = writes_to p a ++ writes_to p b.
Proof.
  induction a as [|e a IH]; simpl; [reflexivity|].
  destruct e as [q|q l| | |]; try exact IH.
  destruct (pin_eqb q p); simpl; now rewrite IH.
Qed.

Lemma in_writes_to (p : pin) (l : level) (tr : list event) :
  In l (writes_to p tr) <-> In (DigitalWrite p l) tr.
Proof.
  induction tr as [|e tr IH]; simpl; [tauto|].
  destruct e as [q|q m| | |];
    try (rewrite IH; split; [tauto | intros [H|H]; [discriminate | exact H]]).
  destruct (pin_eqb q p) eqn:E.
  - apply pin_eqb_eq in E. subst q. simpl. rewrite IH.
    split; [intros [->|H]; auto | intros [H|H]; [injection H; auto | auto]].
  - rewrite IH. split; [tauto|]. intros [H|H]; [|exact H].
    injection H as -> _. rewrite (proj2 (pin_eqb_eq p p) eq_refl) in E.
    discriminate.
Qed.

Lemma drives_high_In (p : pin) (tr : list event) :
  drives_high p tr = true <-> In (DigitalWrite p HIGH) tr.
Proof.
  unfold drives_high. rewrite existsb_exists, <- in_writes_to. split.
  - intros ([|] & Hin & E); [discriminate | exact Hin].
  - intros Hin. exists HIGH. auto.
Qed.

(** ** The level written to a column pin *)

Lemma isr_column_level (g : globals) (st : refresh) (i c : Z) (l : level) :
  isr_dims g -> 0 <= pwm st < 65536 ->
  (DirectMatrix_NUM_COLORS g - 1) * DirectMatrix_ARRAY_COLS g <= 127 ->
  0 <= i < DirectMatrix_NUM_COLORS g ->
  DirectMatrix_SR_PINS g i = DINV ->
  0 <= c < DirectMatrix_ARRAY_COLS g ->
  0 <= DirectMatrix_MATRIX g (row st * DirectMatrix_ARRAY_COLS g + c) < 65536 ->
  In (DigitalWrite (ColPin (i * DirectMatrix_ARRAY_COLS g + c)) l)
    (isr_events g st) <->
  l = level_of
        (Z.land (DirectMatrix_MATRIX g (row st * DirectMatrix_ARRAY_COLS g + c))
           (Z.shiftl (pwm st) (4 * i))).
Proof.
  intros (HR & HC & HK) Hm HKC Hi Hsr Hc Hcell.
  rewrite in_isr_events_column by lia.
  assert (Hoff : forall j, 0 <= j < DirectMatrix_NUM_COLORS g ->
            offset_at g j = j * DirectMatrix_ARRAY_COLS g).
  { intros j Hj. rewrite <- (Z2Nat.id j) by lia.
    apply offset_at_small; [lia|]. rewrite Z2Nat.id by lia. nia. }
  assert (Hmask : cell_level g (row st) c (mask_at (pwm st) i) =
            level_of
              (Z.land
                 (DirectMatrix_MATRIX g
                    (row st * DirectMatrix_ARRAY_COLS g + c))
                 (Z.shiftl (pwm st) (4 * i)))).
  { unfold cell_level. rewrite <- (Z2Nat.id i) at 1 by lia.
    rewrite mask_at_closed, Z2Nat.id, land_uint16 by lia. reflexivity. }
  split.
  - intros (j & c' & Hj & Hc' & _ & E & ->). rewrite Hoff in E by assumption.
    assert (j = i) by nia. subst j. assert (c' = c) by lia. subst c'.
    exact Hmask.
  - intros ->. exists i, c. rewrite Hoff by assumption.
    repeat split; auto; lia.
Qed.

(** The plane bit of colour [i] selects a bit of the colour's nibble. *)
Lemma land_plane_bit (cell i p : Z) :
  0 <= i -> 0 <= p < 4 ->
  (Z.land cell (Z.shiftl (Z.shiftl 1 p) (4 * i)) =? 0) =
  (Z.land (nibble cell i) (Z.shiftl 1 p) =? 0).
Proof.
  intros Hi Hp.
  assert (E1 : Z.land cell (Z.shiftl (Z.shiftl 1 p) (4 * i)) =
               Z.shiftl (Z.land (Z.shiftr cell (4 * i)) (Z.shiftl 1 p))
                 (4 * i)).
  { apply Z.bits_inj'. intros n Hn.
    rewrite Z.land_spec.
    destruct (Z.lt_ge_cases n (4 * i)).
    - rewrite !Z.shiftl_spec_low by lia. apply andb_false_r.
    - rewrite !(Z.shiftl_spec _ (4 * i)) by lia.
      rewrite Z.land_spec, Z.shiftr_spec by lia.
      do 2 f_equal. lia. }
  assert (E2 : Z.land (nibble cell i) (Z.shiftl 1 p) =
               Z.land (Z.shiftr cell (4 * i)) (Z.shiftl 1 p)).
  { unfold nibble. change 16 with (2 ^ 4).
    rewrite <- Z.land_ones by lia.
    rewrite <- Z.land_assoc. f_equal.
    assert (Hcases : p = 0 \/ p = 1 \/ p = 2 \/ p = 3) by lia.
    destruct Hcases as [-> | [-> | [-> | ->]]]; reflexivity. }
  rewrite E1, E2.
  set (v := Z.land (Z.shiftr cell (4 * i)) (Z.shiftl 1 p)).
  rewrite Z.shiftl_mul_pow2 by lia.
  assert (0 < 2 ^ (4 * i)) by (apply Z.pow_pos_nonneg; lia).
  destruct (Z.eqb_spec v 0), (Z.eqb_spec (v * 2 ^ (4 * i)) 0);
    try reflexivity; nia.
Qed.

Lemma nibble_range (cell i : Z) : 0 <= nibble cell i < 16.
Proof. unfold nibble. apply Z.mod_pos_bound. lia. Qed.

(** The four plane bits of a nibble, weighted 1, 2, 4, 8, add up to it. *)
Lemma nibble_weights (n b : Z) :
  0 <= n < 16 ->
  (if Z.land n (Z.shiftl 1 0) =? 0 then 0 else b)
  + ((if Z.land n (Z.shiftl 1 1) =? 0 then 0 else 2 * b)
  + ((if Z.land n (Z.shiftl 1 2) =? 0 then 0 else 4 * b)
  + (if Z.land n (Z.shiftl 1 3) =? 0 then 0 else 8 * b))) = n * b.
Proof.
  intros Hn.
  assert (Hin : In n (zrange 0 16)) by (apply in_zrange; lia).
  cbv in Hin.
  repeat (destruct Hin as [<- | Hin]); try contradiction;
    repeat match goal with
           | |- context [Z.land ?a (Z.shiftl 1 ?k) =? 0] =>
               let v := eval vm_compute in (Z.land a (Z.shiftl 1 k) =? 0) in
               change (Z.land a (Z.shiftl 1 k) =? 0) with v
           end;
    cbv iota; lia.
Qed.

(** ** Binary code modulation over a frame *)

Lemma lit_time_app (g : globals) (r : Z) (p : pin)
    (a b : list (refresh * list event)) :
  lit_time g r p (a ++ b) = lit_time g r p a + lit_time g r p b.
Proof. induction a as [|e a IH]; simpl; [reflexivity|]. rewrite IH. lia. Qed.

Lemma lit_time_pass (g : globals) (r : Z) (q : pin) (m p : Z) (n : nat) :
  forall lo,
    lit_time g r q (pass_log g m p lo n) =
    if (lo <=? r) && (r <? lo + Z.of_nat n)
       && drives_high q (isr_events g (mkRefresh r m p))
    then nth (Z.to_nat p) (DirectMatrix_ISR_FREQ g) 0 else 0.
Proof.
  induction n as [|n IH]; intros lo.
  - simpl. destruct (Z.leb_spec lo r), (Z.ltb_spec r (lo + 0));
      simpl; auto; lia.
  - rewrite pass_log_cons. cbn [lit_time fst snd row isr_freq_offset].
    rewrite IH.
    destruct (Z.eqb_spec lo r) as [->|Hne].
    + destruct (Z.leb_spec (r + 1) r); [lia|].
      destruct (Z.leb_spec r r); [|lia].
      destruct (Z.ltb_spec r (r + Z.of_nat (Datatypes.S n))); [|lia].
      simpl. lia.
    + destruct (Z.leb_spec (lo + 1) r), (Z.ltb_spec r (lo + 1 + Z.of_nat n)),
        (Z.leb_spec lo r), (Z.ltb_spec r (lo + Z.of_nat (Datatypes.S n)));
        simpl; auto; lia.
Qed.

Lemma drives_high_column (g : globals) (st : refresh) (i c : Z) :
  isr_dims g -> 0 <= pwm st < 65536 ->
  (DirectMatrix_NUM_COLORS g - 1) * DirectMatrix_ARRAY_COLS g <= 127 ->
  0 <= i < DirectMatrix_NUM_COLORS g ->
  DirectMatrix_SR_PINS g i = DINV ->
  0 <= c < DirectMatrix_ARRAY_COLS g ->
  0 <= DirectMatrix_MATRIX g (row st * DirectMatrix_ARRAY_COLS g + c) < 65536 ->
  drives_high (ColPin (i * DirectMatrix_ARRAY_COLS g + c)) (isr_events g st) =
  negb (Z.land (DirectMatrix_MATRIX g (row st * DirectMatrix_ARRAY_COLS g + c))
          (Z.shiftl (pwm st) (4 * i)) =? 0).
Proof.
  intros Hd Hm HKC Hi Hsr Hc Hcell.
  pose proof (isr_column_level g st i c HIGH Hd Hm HKC Hi Hsr Hc Hcell) as H.
  rewrite <- drives_high_In in H. unfold level_of in H.
  destruct (Z.land _ _ =? 0); simpl.
  - destruct (drives_high _ _); [|reflexivity].
    discriminate (proj1 H eq_refl).
  - now apply H.
Qed.

(** X4. BCM weighting while [col_pin_offset] does not wrap, that is for
    [(colours - 1) * cols <= 127]: for a colour [i] without shift register,
    a 16-bit cell and the period table [b, 2b, 4b, 8b], one frame of
    invocations returns and the periods of the passes in which the routine
    lights the pixel on pin [i * cols + c] add up to the pixel's 4-bit
    intensity (nibble [i] of the cell) times the base period [b]. *)
Theorem bcm_weighting (g : globals) (fuel : nat) (i r c b : Z) :
  isr_dims g ->
  (DirectMatrix_NUM_COLORS g - 1) * DirectMatrix_ARRAY_COLS g <= 127 ->
  0 <= i < DirectMatrix_NUM_COLORS g ->
  DirectMatrix_SR_PINS g i = DINV ->
  0 <= r < DirectMatrix_ARRAY_ROWS g ->
  0 <= c < DirectMatrix_ARRAY_COLS g ->
  0 <= DirectMatrix_MATRIX g (r * DirectMatrix_ARRAY_COLS g + c) < 65536 ->
  DirectMatrix_ISR_FREQ g = [b; 2 * b; 4 * b; 8 * b] ->
  (127 < fuel)%nat ->
  exists st log,
    run_isr fuel g (4 * Z.to_nat (DirectMatrix_ARRAY_ROWS g)) refresh_init
      = Some (st, log) /\
    lit_time g r (ColPin (i * DirectMatrix_ARRAY_COLS g + c)) log =
    nibble (DirectMatrix_MATRIX g (r * DirectMatrix_ARRAY_COLS g + c)) i * b.
Proof.
  intros Hd HKC Hi Hsr Hr Hc Hcell Hfreq Hfuel.
  eexists _, _. split; [now apply run_isr_total|].
  pose proof Hd as (HR & _ & _).
  destruct (frame_log g HR) as [-> _].
  rewrite !lit_time_app, !lit_time_pass, Hfreq.
  destruct (Z.leb_spec 0 r); [|lia].
  destruct (Z.ltb_spec r
              (0 + Z.of_nat (Z.to_nat (DirectMatrix_ARRAY_ROWS g)))); [|lia].
  cbn [andb].
  rewrite !drives_high_column by (assumption || (cbn [pwm row]; lia)).
  cbn [pwm row].
  set (cell := DirectMatrix_MATRIX g (r * DirectMatrix_ARRAY_COLS g + c)).
  pose proof (land_plane_bit cell i 0) as E0.
  pose proof (land_plane_bit cell i 1) as E1.
  pose proof (land_plane_bit cell i 2) as E2.
  pose proof (land_plane_bit cell i 3) as E3.
  change (Z.shiftl 1 0) with 1 in E0 at 1.
  change (Z.shiftl 1 1) with 2 in E1 at 1.
  change (Z.shiftl 1 2) with 4 in E2 at 1.
  change (Z.shiftl 1 3) with 8 in E3 at 1.
  rewrite E0, E1, E2, E3 by lia.
  rewrite <- (nibble_weights (nibble cell i) b (nibble_range cell i)).
  repeat match goal with
         | |- context [Z.land ?a ?m =? 0] => destruct (Z.land a m =? 0)
         end; reflexivity.
Qed.

(** ** Successive frames *)

(** X5. With an unchanged framebuffer the refresh is periodic: a frame ends in
    the initial statics, and [k] frames emit the events of one frame [k]
    times. *)
Theorem frames_repeat (g : globals) (fuel : nat) :
  isr_dims g -> (127 < fuel)%nat ->
  exists frame,
    run_isr fuel g (4 * Z.to_nat (DirectMatrix_ARRAY_ROWS g)) refresh_init
      = Some (refresh_init, frame) /\
    forall k,
      run_isr fuel g (k * (4 * Z.to_nat (DirectMatrix_ARRAY_ROWS g)))
        refresh_init = Some (refresh_init, concat (repeat frame k)).
Proof.
  intros Hd Hfuel. pose proof Hd as (HR & _ & _).
  destruct (frame_log g HR) as [_ Hend]. cbv zeta in Hend.
  set (N := (4 * Z.to_nat (DirectMatrix_ARRAY_ROWS g))%nat) in *.
  exists (isr_log g N refresh_init). split.
  - rewrite run_isr_total by assumption. now rewrite Hend.
  - intros k. rewrite run_isr_total by assumption.
    induction k as [|k IH]; [reflexivity|].
    change (Datatypes.S k * N)%nat with (N + k * N)%nat.
    rewrite advance_n_add, isr_log_app, Hend.
    injection IH as IHst IHlog. rewrite IHst, IHlog. reflexivity.
Qed.

(** ** The cost of an invocation *)

Lemma gpio_writes_app (a b : list event) :
  gpio_writes (a ++ b) = (gpio_writes a + gpio_writes b)%nat.
Proof. unfold gpio_writes. now rewrite filter_app, length_app. Qed.

Lemma gpio_writes_all (l : list event) :
  Forall (fun e => gpio_write e = true) l -> gpio_writes l = length l.
Proof.
  unfold gpio_writes. induction 1 as [|e l He _ IH]; simpl; [reflexivity|].
  rewrite He. simpl. now rewrite IH.
Qed.

Lemma length_flat_map_const {A B : Type} (f : A -> list B) (n : nat)
    (l : list A) :
  (forall x, length (f x) = n) ->
  length (flat_map f l) = (n * length l)%nat.
Proof.
  intros H. induction l as [|x l IH]; simpl; [lia|].
  rewrite length_app, H, IH. lia.
Qed.

Lemma gpio_writes_plane (g : globals) (r i ps off : Z) :
  gpio_writes (plane_events_at g r i ps off) = plane_writes g i.
Proof.
  rewrite gpio_writes_all.
  - unfold plane_events_at, plane_writes.
    destruct (DirectMatrix_SR_PINS g i =? DINV).
    + unfold direct_events, columns_of.
      now rewrite length_map, zrange_length.
    + unfold shifted_events, columns_of.
      rewrite !length_app, (length_flat_map_const _ 3), zrange_length
        by reflexivity.
      simpl. lia.
  - eapply Forall_impl; [|apply plane_events_column_write].
    intros [q|[k|k|k] l| | |]; simpl; congruence.
Qed.

Lemma gpio_writes_planes (g : globals) (r m : Z) (l : list Z) :
  gpio_writes (flat_map (plane_events g r m) l) =
  list_sum (map (plane_writes g) l).
Proof.
  induction l as [|j l IH]; simpl; [reflexivity|].
  rewrite gpio_writes_app, IH. unfold plane_events.
  now rewrite gpio_writes_plane.
Qed.

(** X6. The number of [digitalWrite] calls of an invocation: two for the rows
    and [plane_writes] for each colour; with every colour on direct pins
    that is [2 + colours * cols]. *)
Theorem invocation_gpio_writes (g : globals) (st : refresh) (fuel : nat) :
  isr_dims g -> (127 < fuel)%nat ->
  exists st' ev,
    DirectMatrix_RefreshPWMLine fuel g st = Some (st', ev) /\
    gpio_writes ev =
      (2 + list_sum
             (map (plane_writes g)
                (zrange 0 (Z.to_nat (DirectMatrix_NUM_COLORS g)))))%nat /\
    ((forall j, 0 <= j < DirectMatrix_NUM_COLORS g ->
        DirectMatrix_SR_PINS g j = DINV) ->
     Z.of_nat (gpio_writes ev) =
     2 + DirectMatrix_NUM_COLORS g * DirectMatrix_ARRAY_COLS g).
Proof.
  intros Hd Hfuel. pose proof Hd as (HR & HC & HK).
  eexists _, _. split; [now apply DirectMatrix_RefreshPWMLine_total|].
  assert (Hcount : gpio_writes (isr_events g st) =
            (2 + list_sum
                   (map (plane_writes g)
                      (zrange 0 (Z.to_nat (DirectMatrix_NUM_COLORS g)))))%nat).
  { unfold isr_events, column_events.
    rewrite !gpio_writes_app, gpio_writes_planes.
    unfold period_events, gpio_writes. destruct (row st =? 0); simpl; lia. }
  split; [exact Hcount|]. intros Hdirect. rewrite Hcount.
  assert (Hsum : forall n lo,
    0 <= lo -> lo + Z.of_nat n <= DirectMatrix_NUM_COLORS g ->
    Z.of_nat (list_sum (map (plane_writes g) (zrange lo n))) =
    Z.of_nat n * DirectMatrix_ARRAY_COLS g).
  { induction n as [|n IH]; intros lo Hlo Hn; [reflexivity|].
    cbn [zrange map].
    change (list_sum (?a :: ?l)) with (a + list_sum l)%nat.
    rewrite Nat2Z.inj_add, IH by lia.
    unfold plane_writes. rewrite Hdirect by lia.
    rewrite Z.eqb_refl. lia. }
  rewrite Nat2Z.inj_add, Hsum by lia. lia.
Qed.

(** ** Shift-register colours *)

Lemma zrange_split (lo j : Z) (n : nat) :
  lo <= j < lo + Z.of_nat n ->
  zrange lo n =
  zrange lo (Z.to_nat (j - lo)) ++ j
    :: zrange (j + 1) (n - Z.to_nat (j - lo) - 1).
Proof.
  intros Hj.
  replace n with (Z.to_nat (j - lo)
                  + Datatypes.S (n - Z.to_nat (j - lo) - 1))%nat at 1 by lia.
  rewrite zrange_app. simpl.
  replace (lo + Z.of_nat (Z.to_nat (j - lo))) with j by lia. reflexivity.
Qed.

(** The events that the routine spends on a colour behind a shift register
    form one block: latch LOW, the clocked bits, latch HIGH. *)
Lemma isr_events_sr_segment (g : globals) (st : refresh) (j : Z) :
  0 <= j < DirectMatrix_NUM_COLORS g ->
  DirectMatrix_SR_PINS g j <> DINV ->
  exists pre post,
    isr_events g st =
    pre ++ [DigitalWrite (SRPin j) LOW]
      ++ shifted_events g (row st) (mask_at (pwm st) j)
      ++ [DigitalWrite (SRPin j) HIGH] ++ post.
Proof.
  intros Hj Hsr. unfold isr_events, column_events.
  rewrite (zrange_split 0 j) by lia.
  rewrite flat_map_app. cbn [flat_map].
  unfold plane_events at 2. unfold plane_events_at.
  destruct (Z.eqb_spec (DirectMatrix_SR_PINS g j) DINV); [contradiction|].
  set (before := flat_map (plane_events g (row st) (pwm st))
                   (zrange 0 (Z.to_nat (j - 0)))).
  set (after := flat_map (plane_events g (row st) (pwm st))
                  (zrange (j + 1)
                     (Z.to_nat (DirectMatrix_NUM_COLORS g)
                      - Z.to_nat (j - 0) - 1))).
  set (bits := shifted_events g (row st) (mask_at (pwm st) j)).
  exists (period_events g st
            ++ [DigitalWrite (RowPin (oldrow g st)) HIGH] ++ before),
    (after ++ [DigitalWrite (RowPin (row st)) LOW]).
  rewrite <- !app_assoc. reflexivity.
Qed.

Lemma flat_map_ext_in {A B : Type} (f h : A -> list B) (l : list A) :
  (forall x, In x l -> f x = h x) -> flat_map f l = flat_map h l.
Proof.
  induction l as [|x l IH]; intros H; simpl; [reflexivity|].
  rewrite H by (now left). rewrite IH; [reflexivity|].
  intros y Hy. apply H. now right.
Qed.

(** X7. A colour behind a shift register: the invocation lowers the colour's
    latch, clocks one bit per column in column order, each bit between a
    falling and a rising clock edge and HIGH exactly when
    [cell & (mask << 4*j)] is non-zero, and raises the latch again. *)
Theorem shift_register_plane (g : globals) (st : refresh) (fuel : nat)
    (j : Z) :
  isr_dims g -> 0 <= pwm st < 65536 ->
  0 <= j < DirectMatrix_NUM_COLORS g ->
  DirectMatrix_SR_PINS g j <> DINV ->
  (forall c, 0 <= c < DirectMatrix_ARRAY_COLS g ->
     0 <= DirectMatrix_MATRIX g (row st * DirectMatrix_ARRAY_COLS g + c)
       < 65536) ->
  (127 < fuel)%nat ->
  exists st' pre post,
    DirectMatrix_RefreshPWMLine fuel g st =
    Some (st',
          pre ++ [DigitalWrite (SRPin j) LOW]
            ++ flat_map
                 (fun c =>
                    [DigitalWrite (SRPin CLK) LOW;
                     DigitalWrite (SRPin DATA)
                       (if Z.land
                             (DirectMatrix_MATRIX g
                                (row st * DirectMatrix_ARRAY_COLS g + c))
                             (Z.shiftl (pwm st) (4 * j)) =? 0
                        then LOW else HIGH);
                     DigitalWrite (SRPin CLK) HIGH])
                 (zrange 0 (Z.to_nat (DirectMatrix_ARRAY_COLS g)))
            ++ [DigitalWrite (SRPin j) HIGH] ++ post).
Proof.
  intros Hd Hm Hj Hsr Hcells Hfuel. pose proof Hd as (_ & HC & _).
  destruct (isr_events_sr_segment g st j Hj Hsr) as (pre & post & E).
  exists (advance g st), pre, post.
  rewrite DirectMatrix_RefreshPWMLine_total, E by assumption.
  do 5 f_equal. unfold shifted_events, columns_of.
  apply flat_map_ext_in. intros c Hc. apply in_zrange in Hc.
  unfold cell_level, level_of.
  rewrite <- (Z2Nat.id j) at 1 by lia.
  rewrite mask_at_closed, Z2Nat.id, land_uint16 by (try apply Hcells; lia).
  reflexivity.
Qed.

(** ** [clear] followed by the refresh *)

Lemma clear_returns (o : object) (g : globals) (fuel : nat) :
  _num_rows o * _num_cols o <= 255 -> (256 < fuel)%nat ->
  clear fuel o g =
  Some (with_matrix g
          (zeroed (DirectMatrix_MATRIX g)
             (zrange 0 (Z.to_nat (_num_rows o * _num_cols o))))).
Proof.
  intros Hn Hfuel. unfold clear.
  rewrite (for_loop_counted _ _ _ (Z.to_nat (_num_rows o * _num_cols o)));
    [ | intros k Hk; split; [apply Z.ltb_lt; lia | apply uint8_small; lia]
      | apply Z.ltb_ge; lia | lia ].
  now rewrite iter_opt_store.
Qed.

(** X8. [clear] returns exactly when the matrix has at most 255 cells. *)
Theorem clear_returns_iff (o : object) (g : globals) (fuel : nat) :
  (256 < fuel)%nat ->
  (exists g', clear fuel o g = Some g') <-> _num_rows o * _num_cols o <= 255.
Proof.
  intros Hfuel. split.
  - intros [g' E].
    destruct (Z.le_gt_cases (_num_rows o * _num_cols o) 255) as [H|H];
      [exact H|].
    rewrite clear_diverges in E by lia. discriminate.
  - intros H. eexists. now apply clear_returns.
Qed.

(** X9. After [clear] the display is dark: any invocation that services a row
    of the matrix drives no column pin HIGH and clocks only LOW bits into
    the shift register of every colour that has one. *)
Theorem clear_then_dark (o : object) (g : globals) (st : refresh)
    (fuel : nat) :
  isr_dims g ->
  _num_rows o = DirectMatrix_ARRAY_ROWS g ->
  _num_cols o = DirectMatrix_ARRAY_COLS g ->
  DirectMatrix_ARRAY_ROWS g * DirectMatrix_ARRAY_COLS g <= 255 ->
  0 <= row st < DirectMatrix_ARRAY_ROWS g ->
  (256 < fuel)%nat ->
  exists g' st' ev,
    clear fuel o g = Some g' /\
    DirectMatrix_RefreshPWMLine fuel g' st = Some (st', ev) /\
    (forall k, ~ In (DigitalWrite (ColPin k) HIGH) ev) /\
    (forall j, 0 <= j < DirectMatrix_NUM_COLORS g ->
       DirectMatrix_SR_PINS g j <> DINV ->
       exists pre post,
         ev = pre ++ [DigitalWrite (SRPin j) LOW]
                ++ flat_map
                     (fun _ =>
                        [DigitalWrite (SRPin CLK) LOW;
                         DigitalWrite (SRPin DATA) LOW;
                         DigitalWrite (SRPin CLK) HIGH])
                     (zrange 0 (Z.to_nat (DirectMatrix_ARRAY_COLS g)))
                ++ [DigitalWrite (SRPin j) HIGH] ++ post).
Proof.
  intros Hd HRo HCo Hn Hrow Hfuel. pose proof Hd as (HR & HC & HK).
  set (g' := with_matrix g
               (zeroed (DirectMatrix_MATRIX g)
                  (zrange 0 (Z.to_nat (_num_rows o * _num_cols o))))).
  assert (Hd' : isr_dims g') by exact Hd.
  assert (Hzero : forall c ps, 0 <= c < DirectMatrix_ARRAY_COLS g ->
            cell_level g' (row st) c ps = LOW).
  { intros c ps Hc. unfold cell_level. simpl.
    rewrite (proj1 (zeroed_spec _ _ _)); [reflexivity|].
    apply in_zrange. rewrite HRo, HCo. nia. }
  exists g', (advance g' st), (isr_events g' st).
  split; [apply clear_returns; [rewrite HRo, HCo; lia | lia]|].
  split; [apply DirectMatrix_RefreshPWMLine_total; [exact Hd' | lia]|].
  split.
  - intros k Hin. apply in_isr_events_column in Hin; [|simpl; lia..].
    destruct Hin as (j & c & _ & Hc & _ & _ & E).
    rewrite Hzero in E by exact Hc. discriminate.
  - intros j Hj Hsr.
    destruct (isr_events_sr_segment g' st j Hj Hsr) as (pre & post & E).
    exists pre, post. rewrite E. do 2 f_equal. f_equal.
    unfold shifted_events, columns_of. apply flat_map_ext_in.
    intros c Hc. apply in_zrange in Hc. simpl in Hc.
    rewrite Hzero by lia. reflexivity.
Qed.

(** ** Plotting *)

Lemma land_bit_testbit (w k : Z) :
  0 <= k -> (Z.land w (Z.shiftl 1 k) =? 0) = negb (Z.testbit w k).
Proof.
  intros Hk. rewrite Z.shiftl_1_l.
  destruct (Z.testbit w k) eqn:E; simpl.
  - apply Z.eqb_neq. intros H0.
    assert (Hb : Z.testbit (Z.land w (2 ^ k)) k = true)
      by (rewrite Z.land_spec, E, Z.pow2_bits_true by lia; reflexivity).
    rewrite H0, Z.bits_0 in Hb. discriminate.
  - apply Z.eqb_eq. apply Z.bits_inj'. intros n Hn.
    rewrite Z.land_spec, Z.bits_0, Z.pow2_bits_eqb by lia.
    destruct (Z.eqb_spec k n) as [->|_]; [now rewrite E | apply andb_false_r].
Qed.

(** X10. A plotted word shows on the next refresh of its row: after
    [drawPixel (x, y, w)] on a panel 8 columns wide, the invocation that
    services the rotated row at BCM bit [b] drives the rotated column of a
    direct colour [i] HIGH exactly when bit [4*i + b] of [w] is set. *)
Theorem plot_then_refresh (o : object) (g : globals) (st : refresh)
    (fuel : nat) (x y w i : Z) :
  isr_dims g ->
  DirectMatrix_ARRAY_COLS g = 8 -> _num_cols o = 8 ->
  DirectMatrix_NUM_COLORS g * 8 <= 128 ->
  0 <= x < 8 -> 0 <= y < 8 -> 0 <= w < 65536 ->
  0 <= i < DirectMatrix_NUM_COLORS g ->
  DirectMatrix_SR_PINS g i = DINV ->
  row st = snd (spec_rotate (rotation o) (x, y)) ->
  0 <= isr_freq_offset st < 4 ->
  pwm st = Z.shiftl 1 (isr_freq_offset st) ->
  (127 < fuel)%nat ->
  exists st' ev,
    DirectMatrix_RefreshPWMLine fuel (drawPixel o g x y w) st
      = Some (st', ev) /\
    (In (DigitalWrite
           (ColPin (i * 8 + fst (spec_rotate (rotation o) (x, y)))) HIGH) ev
     <-> Z.testbit w (4 * i + isr_freq_offset st) = true).
Proof.
  intros Hd HC HCo HKC Hx Hy Hw Hi Hsr Hrow Hp Hpwm Hfuel.
  rewrite drawPixel_in_bounds, HCo by assumption.
  destruct (spec_rotate_in_bounds (rotation o) x y Hx Hy) as [Hx' Hy'].
  set (x' := fst (spec_rotate (rotation o) (x, y))) in *.
  set (y' := snd (spec_rotate (rotation o) (x, y))) in *.
  set (g' := with_matrix g
               (store (DirectMatrix_MATRIX g)
                  (spec_cell 8 (spec_rotate (rotation o) (x, y))) w)).
  assert (Hd' : isr_dims g') by exact Hd.
  assert (Hcell : DirectMatrix_MATRIX g'
                    (row st * DirectMatrix_ARRAY_COLS g' + x') = w).
  { simpl. rewrite HC, Hrow. unfold spec_cell. apply store_same. }
  assert (Hm : 0 <= pwm st < 65536).
  { rewrite Hpwm.
    assert (Hc : isr_freq_offset st = 0 \/ isr_freq_offset st = 1 \/
                 isr_freq_offset st = 2 \/ isr_freq_offset st = 3) by lia.
    destruct Hc as [-> | [-> | [-> | ->]]]; simpl; lia. }
  eexists _, _.
  split; [apply DirectMatrix_RefreshPWMLine_total; assumption|].
  pose proof (isr_column_level g' st i x' HIGH Hd' Hm) as H.
  change (DirectMatrix_ARRAY_COLS g') with (DirectMatrix_ARRAY_COLS g) in *.
  change (DirectMatrix_NUM_COLORS g') with (DirectMatrix_NUM_COLORS g) in H.
  change (DirectMatrix_SR_PINS g') with (DirectMatrix_SR_PINS g) in H.
  rewrite HC in *. rewrite Hcell in H.
  rewrite H by (assumption || lia).
  rewrite Hpwm, Z.shiftl_shiftl by lia.
  unfold level_of.
  rewrite (Z.add_comm (isr_freq_offset st)), land_bit_testbit by lia.
  destruct (Z.testbit w (4 * i + isr_freq_offset st)); simpl;
    split; congruence.
Qed.

Lemma drawPixel_out_of_bounds (o : object) (g : globals) (x y w : Z) :
  x < 0 \/ 8 <= x \/ y < 0 \/ 8 <= y -> drawPixel o g x y w = g.
Proof.
  intros H. unfold drawPixel.
  destruct (Z.ltb_spec y 0); [reflexivity|].
  destruct (Z.geb_spec y 8); [reflexivity|].
  destruct (Z.ltb_spec x 0); [reflexivity|].
  destruct (Z.geb_spec x 8); [reflexivity|].
  lia.
Qed.

(** X11. Plotting the same position twice keeps the second word only; this
    holds out of bounds too, where both plots do nothing. *)
Theorem plot_overwrites (o : object) (g : globals) (x y w1 w2 : Z) :
  forall i,
    DirectMatrix_MATRIX (drawPixel o (drawPixel o g x y w1) x y w2) i =
    DirectMatrix_MATRIX (drawPixel o g x y w2) i.
Proof.
  intros i.
  destruct (Z_lt_dec x 0) as [Hx|Hx];
    [rewrite !drawPixel_out_of_bounds by lia; reflexivity|].
  destruct (Z_le_dec 8 x) as [Hx8|Hx8];
    [rewrite !drawPixel_out_of_bounds by lia; reflexivity|].
  destruct (Z_lt_dec y 0) as [Hy|Hy];
    [rewrite !drawPixel_out_of_bounds by lia; reflexivity|].
  destruct (Z_le_dec 8 y) as [Hy8|Hy8];
    [rewrite !drawPixel_out_of_bounds by lia; reflexivity|].
  rewrite !drawPixel_in_bounds by lia. simpl. unfold store.
  now destruct (i =? _).
Qed.

Lemma cell_index_injective (cols a b c d : Z) :
  8 <= cols -> 0 <= a < 8 -> 0 <= c < 8 ->
  b * cols + a = d * cols + c -> a = c /\ b = d.
Proof.
  intros Hc Ha Hcc E.
  assert (Hbd : b = d).
  { destruct (Z.lt_trichotomy b d) as [H|[H|H]]; [|exact H|].
    - assert ((d - b) * cols >= cols) by nia. lia.
    - assert ((b - d) * cols >= cols) by nia. lia. }
  subst d. split; lia.
Qed.

Lemma spec_cell_injective (cols r x1 y1 x2 y2 : Z) :
  8 <= cols ->
  0 <= x1 < 8 -> 0 <= y1 < 8 -> 0 <= x2 < 8 -> 0 <= y2 < 8 ->
  spec_cell cols (spec_rotate r (x1, y1)) =
  spec_cell cols (spec_rotate r (x2, y2)) ->
  x1 = x2 /\ y1 = y2.
Proof.
  intros Hc Hx1 Hy1 Hx2 Hy2. unfold spec_cell, spec_rotate, spec_swap.
  destruct r as [|[[|[]|]|[|[]|]|]|]; cbv beta iota delta [fst snd];
    intros E; apply cell_index_injective in E; lia.
Qed.

(** X12. On a panel at least 8 columns wide two different in-bounds positions
    never share a cell: both words read back from their cells whatever the
    order of the plots, and the two orders leave the same framebuffer. *)
Theorem plots_independent (o : object) (g : globals)
    (x1 y1 w1 x2 y2 w2 : Z) :
  8 <= _num_cols o ->
  0 <= x1 < 8 -> 0 <= y1 < 8 -> 0 <= x2 < 8 -> 0 <= y2 < 8 ->
  x1 <> x2 \/ y1 <> y2 ->
  DirectMatrix_MATRIX (drawPixel o (drawPixel o g x1 y1 w1) x2 y2 w2)
    (spec_cell (_num_cols o) (spec_rotate (rotation o) (x1, y1))) = w1 /\
  DirectMatrix_MATRIX (drawPixel o (drawPixel o g x1 y1 w1) x2 y2 w2)
    (spec_cell (_num_cols o) (spec_rotate (rotation o) (x2, y2))) = w2 /\
  forall i,
    DirectMatrix_MATRIX (drawPixel o (drawPixel o g x1 y1 w1) x2 y2 w2) i =
    DirectMatrix_MATRIX (drawPixel o (drawPixel o g x2 y2 w2) x1 y1 w1) i.
Proof.
  intros Hc Hx1 Hy1 Hx2 Hy2 Hne.
  assert (Hcells :
    spec_cell (_num_cols o) (spec_rotate (rotation o) (x1, y1)) <>
    spec_cell (_num_cols o) (spec_rotate (rotation o) (x2, y2))).
  { intros E.
    apply spec_cell_injective in E; try assumption. lia. }
  rewrite !drawPixel_in_bounds by assumption. simpl.
  set (c1 := spec_cell (_num_cols o) (spec_rotate (rotation o) (x1, y1))) in *.
  set (c2 := spec_cell (_num_cols o) (spec_rotate (rotation o) (x2, y2))) in *.
  split; [rewrite store_other by exact Hcells; apply store_same|].
  split; [apply store_same|].
  intros i. unfold store.
  destruct (Z.eqb_spec i c2), (Z.eqb_spec i c1); try reflexivity.
  congruence.
Qed.

(** X13. On a panel narrower than 8 columns the 8x8 bounds check lets two
    positions share a cell: at rotation 0 the plots at [(cols, 0)] and at
    [(0, 1)] are the same store. *)
Theorem narrow_panel_aliases (o : object) (g : globals) (w : Z) :
  1 <= _num_cols o <= 7 -> rotation o = 0 ->
  drawPixel o g (_num_cols o) 0 w = drawPixel o g 0 1 w.
Proof.
  intros Hc Hr. rewrite !drawPixel_in_bounds by lia. rewrite Hr.
  unfold spec_cell, spec_rotate. cbv beta iota delta [fst snd].
  do 2 f_equal. lia.
Qed.

(** ** [begin]: pin modes, the pre-clocking pattern, and the timer *)

Lemma configured_before_weaken (tr : list event) :
  forall S S' : pin -> Prop,
    (forall p, S p -> S' p) ->
    configured_before S tr -> configured_before S' tr.
Proof.
  induction tr as [|e tr IH]; intros S S' Hs H; [exact I|].
  destruct e as [p|p l| | |]; simpl in *.
  - apply (IH (fun q => S q \/ q = p)); [|exact H]. intros q [Hq|Hq]; auto.
  - destruct H as [Hp H]. split; [auto | now apply (IH S)].
  - now apply (IH S).
  - now apply (IH S).
  - now apply (IH S).
Qed.

Lemma configured_before_app (a : list event) :
  forall (S : pin -> Prop) (b : list event),
    configured_before S a ->
    configured_before (fun p => S p \/ In (PinMode p) a) b ->
    configured_before S (a ++ b).
Proof.
  induction a as [|e a IH]; intros S b Ha Hb.
  - apply (configured_before_weaken b
             (fun p => S p \/ In (PinMode p) []) S); [|exact Hb].
    intros p [H|[]]. exact H.
  - destruct e as [p|p l|us|us|]; simpl in Ha; cbn [app configured_before].
    + apply IH; [exact Ha|].
      apply (configured_before_weaken b
               (fun q => S q \/ In (PinMode q) (PinMode p :: a))
               (fun q => (S q \/ q = p) \/ In (PinMode q) a)); [|exact Hb].
      intros q [H|[H|H]]; auto. injection H as ->. auto.
    + destruct Ha as [Hp Ha]. split; [exact Hp|].
      apply IH; [exact Ha|].
      apply (configured_before_weaken b
               (fun q => S q \/ In (PinMode q) (DigitalWrite p l :: a))
               (fun q => S q \/ In (PinMode q) a)); [|exact Hb].
      intros q [H|[H|H]]; auto. discriminate.
    + apply IH; [exact Ha|].
      apply (configured_before_weaken b
               (fun q => S q \/ In (PinMode q) (SetPeriod us :: a))
               (fun q => S q \/ In (PinMode q) a)); [|exact Hb].
      intros q [H|[H|H]]; auto. discriminate.
    + apply IH; [exact Ha|].
      apply (configured_before_weaken b
               (fun q => S q \/ In (PinMode q) (TimerInitialize us :: a))
               (fun q => S q \/ In (PinMode q) a)); [|exact Hb].
      intros q [H|[H|H]]; auto. discriminate.
    + apply IH; [exact Ha|].
      apply (configured_before_weaken b
               (fun q => S q \/ In (PinMode q) (AttachInterrupt :: a))
               (fun q => S q \/ In (PinMode q) a)); [|exact Hb].
      intros q [H|[H|H]]; auto. discriminate.
Qed.

Lemma configured_before_blocks {A : Type} (S : pin -> Prop)
    (f : A -> list event) (l : list A) :
  (forall x, configured_before S (f x)) ->
  configured_before S (flat_map f l).
Proof.
  intros H. induction l as [|x l IH]; simpl; [exact I|].
  apply configured_before_app; [apply H|].
  apply (configured_before_weaken (flat_map f l) S
           (fun p => S p \/ In (PinMode p) (f x))); [auto | exact IH].
Qed.

Lemma configured_before_sound (tr : list event) :
  forall (S : pin -> Prop) pre p l suf,
    configured_before S tr ->
    tr = pre ++ DigitalWrite p l :: suf ->
    S p \/ In (PinMode p) pre.
Proof.
  induction tr as [|e tr IH]; intros S pre p l suf H E.
  - destruct pre; discriminate.
  - destruct pre as [|e' pre]; simpl in E; injection E as E1 E; subst e.
    + simpl in H. left. apply H.
    + destruct e' as [q|q m| | |]; simpl in H.
      * destruct (IH _ pre p l suf H E) as [[Hs | Hq] | Hin]; simpl; auto.
        subst q. auto.
      * destruct H as [_ H].
        destruct (IH _ pre p l suf H E); simpl; auto.
      * destruct (IH _ pre p l suf H E); simpl; auto.
      * destruct (IH _ pre p l suf H E); simpl; auto.
      * destruct (IH _ pre p l suf H E); simpl; auto.
Qed.

Lemma begin_events_configured (o : object) (sr_pins : Z -> Z) (base : Z) :
  configured_before (fun _ => False) (begin_events o sr_pins base).
Proof.
  unfold begin_events.
  apply configured_before_app;
    [apply configured_before_blocks; intros i; simpl; auto|].
  eapply configured_before_weaken; [intros p H; exact H|].
  apply configured_before_app;
    [apply configured_before_blocks; intros i; simpl; auto|].
  eapply configured_before_weaken; [intros p H; exact H|].
  apply configured_before_app; [|simpl; exact I].
  apply configured_before_blocks. intros pin. unfold sr_setup_events.
  destruct (sr_pins pin =? 255); [exact I|].
  cbn [app configured_before]. split; [auto|].
  apply configured_before_app.
  - unfold preclock_events. apply configured_before_blocks. intros i.
    simpl. auto 10.
  - simpl. auto 10.
Qed.

(** X14. [begin] makes every pin an output before it writes to it, never
    reprograms the timer period, starts the timer only after all pin
    writes, and leaves dimensions and framebuffer as they are. *)
Theorem begin_configures_then_starts (o : object) (g : globals)
    (sr_pins : Z -> Z) (base : Z) (fuel : nat) :
  0 <= _num_rows o <= 254 -> 0 <= _num_cols o <= 255 -> (256 < fuel)%nat ->
  exists g' setup,
    begin fuel o g sr_pins base =
      Some (g', setup ++ [TimerInitialize base; AttachInterrupt]) /\
    Forall (fun e => exists p, e = PinMode p \/ exists l, e = DigitalWrite p l)
      setup /\
    (forall pre p l suf,
       setup = pre ++ DigitalWrite p l :: suf -> In (PinMode p) pre) /\
    DirectMatrix_MATRIX g' = DirectMatrix_MATRIX g /\
    DirectMatrix_ARRAY_ROWS g' = DirectMatrix_ARRAY_ROWS g /\
    DirectMatrix_ARRAY_COLS g' = DirectMatrix_ARRAY_COLS g /\
    DirectMatrix_NUM_COLORS g' = DirectMatrix_NUM_COLORS g /\
    DirectMatrix_SR_PINS g' = sr_pins.
Proof.
  intros HR HC Hfuel.
  exists (begin_globals g sr_pins base),
    (row_setup_events o ++ col_setup_events o
       ++ flat_map (sr_setup_events o sr_pins) [0; 1; 2]).
  split; [rewrite begin_total by assumption; unfold begin_events;
          now rewrite <- !app_assoc|].
  split.
  - apply Forall_app; split; [|apply Forall_app; split].
    + unfold row_setup_events. apply Forall_flat_map. intros.
      repeat constructor; eauto.
    + unfold col_setup_events. apply Forall_flat_map. intros.
      repeat constructor; eauto.
    + apply Forall_flat_map. intros pin _. unfold sr_setup_events.
      destruct (sr_pins pin =? 255); [constructor|].
      apply Forall_app; split; [|apply Forall_app; split].
      * repeat constructor; eauto.
      * unfold preclock_events. apply Forall_flat_map. intros.
        repeat constructor; eauto.
      * repeat constructor; eauto.
  - split; [|repeat split].
    intros pre p l suf E.
    destruct (configured_before_sound (begin_events o sr_pins base)
                (fun _ => False) pre p l
                (suf ++ [TimerInitialize base; AttachInterrupt])
                (begin_events_configured o sr_pins base))
      as [[]|H]; [|exact H].
    unfold begin_events.
    transitivity
      ((row_setup_events o ++ col_setup_events o
          ++ flat_map (sr_setup_events o sr_pins) [0; 1; 2])
         ++ [TimerInitialize base; AttachInterrupt]);
      [now rewrite <- !app_assoc|].
    rewrite E. now rewrite <- app_assoc.
Qed.

Lemma level_of_land_1 (i : Z) :
  level_of (Z.land i 1) = if Z.odd i then HIGH else LOW.
Proof.
  change 1 with (Z.ones 1). rewrite Z.land_ones by lia.
  change (2 ^ 1) with 2. rewrite Zmod_odd.
  now destruct (Z.odd i).
Qed.

(** X15. [begin] primes every shift register that is present: one block of
    events that makes the latch, data and clock pins outputs, lowers the
    latch, clocks [rows + 1] bits that alternate from LOW, and raises the
    latch. *)
Theorem begin_preclocks (o : object) (g : globals) (sr_pins : Z -> Z)
    (base : Z) (fuel : nat) (pin : Z) :
  0 <= _num_rows o <= 254 -> 0 <= _num_cols o <= 255 -> (256 < fuel)%nat ->
  0 <= pin < 3 -> sr_pins pin <> 255 ->
  exists g' pre post,
    begin fuel o g sr_pins base =
    Some (g',
          pre ++ [PinMode (SRPin pin); PinMode (SRPin DATA);
                  PinMode (SRPin CLK); DigitalWrite (SRPin pin) LOW]
            ++ flat_map
                 (fun i =>
                    [DigitalWrite (SRPin CLK) LOW;
                     DigitalWrite (SRPin DATA)
                       (if Z.odd i then HIGH else LOW);
                     DigitalWrite (SRPin CLK) HIGH])
                 (zrange 0 (Z.to_nat (_num_rows o + 1)))
            ++ [DigitalWrite (SRPin pin) HIGH] ++ post).
Proof.
  intros HR HC Hfuel Hpin Hsr.
  assert (Hblock : sr_setup_events o sr_pins pin =
    [PinMode (SRPin pin); PinMode (SRPin DATA); PinMode (SRPin CLK);
     DigitalWrite (SRPin pin) LOW]
      ++ flat_map
           (fun i =>
              [DigitalWrite (SRPin CLK) LOW;
               DigitalWrite (SRPin DATA) (if Z.odd i then HIGH else LOW);
               DigitalWrite (SRPin CLK) HIGH])
           (zrange 0 (Z.to_nat (_num_rows o + 1)))
      ++ [DigitalWrite (SRPin pin) HIGH]).
  { unfold sr_setup_events.
    destruct (Z.eqb_spec (sr_pins pin) 255); [contradiction|].
    do 2 f_equal. unfold preclock_events. apply flat_map_ext_in.
    intros i _. now rewrite level_of_land_1. }
  rewrite begin_total by assumption. unfold begin_events.
  set (rows := row_setup_events o). set (cols := col_setup_events o).
  set (timer := [TimerInitialize base; AttachInterrupt]).
  assert (Hcases : pin = 0 \/ pin = 1 \/ pin = 2) by lia.
  cbn [flat_map]. rewrite app_nil_r.
  destruct Hcases as [-> | [-> | ->]]; rewrite Hblock.
  - exists (begin_globals g sr_pins base), (rows ++ cols),
      (sr_setup_events o sr_pins 1 ++ sr_setup_events o sr_pins 2 ++ timer).
    rewrite <- !app_assoc. reflexivity.
  - exists (begin_globals g sr_pins base),
      (rows ++ cols ++ sr_setup_events o sr_pins 0),
      (sr_setup_events o sr_pins 2 ++ timer).
    rewrite <- !app_assoc. reflexivity.
  - exists (begin_globals g sr_pins base),
      (rows ++ cols ++ sr_setup_events o sr_pins 0
         ++ sr_setup_events o sr_pins 1),
      timer.
    rewrite <- !app_assoc. reflexivity.
Qed.

(** X16. With 255 rows and a shift register present [begin] does not return:
    the pre-clocking counter is a [uint8_t] compared with [i <= 255]. *)
Theorem begin_hangs_at_255_rows (o : object) (g : globals)
    (sr_pins : Z -> Z) (base : Z) (fuel : nat) (pin : Z) :
  _num_rows o = 255 -> 0 <= pin < 3 -> sr_pins pin <> 255 ->
  begin fuel o g sr_pins base = None.
Proof.
  intros HR Hpin Hsr.
  assert (Hpre : forall f tr, preclock f o tr = None).
  { intros f tr. unfold preclock.
    apply (for_loop_diverges _ _ _ (fun i => 0 <= i <= 255)); [|lia].
    intros i Hi. split; [apply Z.leb_le; lia|].
    unfold uint8. pose proof (Z.mod_pos_bound (i + 1) 256). lia. }
  unfold begin.
  destruct (for_loop fuel _ _ _ 0 []) as [tr1|]; [|reflexivity].
  destruct (for_loop fuel _ _ _ 0 tr1) as [tr2|]; [|reflexivity].
  assert (Hloop : forall tr,
    for_loop fuel (fun pin => uint8 (pin + 1)) (fun pin => pin <? 3)
      (fun pin tr =>
         if sr_pins pin =? 255 then Some tr
         else
           match
             preclock fuel o
               (tr ++ [PinMode (SRPin pin); PinMode (SRPin DATA);
                       PinMode (SRPin CLK); DigitalWrite (SRPin pin) LOW])
           with
           | Some tr => Some (tr ++ [DigitalWrite (SRPin pin) HIGH])
           | None => None
           end) 0 tr = None).
  { intros tr.
    assert (Hcases : pin = 0 \/ pin = 1 \/ pin = 2) by lia.
    destruct fuel as [|[|[|f]]]; cbn [for_loop]; try reflexivity;
      change (0 <? 3) with true; change (uint8 (0 + 1)) with 1;
      change (1 <? 3) with true; change (uint8 (1 + 1)) with 2;
      change (2 <? 3) with true; cbv iota;
      destruct (Z.eqb_spec (sr_pins 0) 255), (Z.eqb_spec (sr_pins 1) 255),
        (Z.eqb_spec (sr_pins 2) 255);
      rewrite ?Hpre; try reflexivity;
      destruct Hcases as [-> | [-> | ->]]; contradiction. }
  now rewrite Hloop.
Qed.

(** ** The profiling counters *)

Lemma micros_difference (a b : Z) :
  0 <= a - b < 4294967296 -> uint32 (micros a - micros b) = a - b.
Proof.
  intros H. unfold micros, uint32.
  rewrite <- Zminus_mod. now apply Z.mod_small.
Qed.

(** X17. The counters survive the wrap of [micros()]: after two successive
    invocations, [ISR_runtime] is the time from the restart of [time] to
    the run-time sample of the second one, and [ISR_latency] is the time
    from the end of the first invocation to the latency sample of the
    second, exactly, as long as each interval is shorter than 2^32
    microseconds. *)
Theorem profiling_survives_wrap (g : globals) (fuel : nat)
    (st : refresh) (d : diagnostics) (t1 t2 : readings)
    (Tend1 Tlat2 Tstart2 Trun2 : Z) :
  isr_dims g -> (127 < fuel)%nat ->
  t_end t1 = micros Tend1 ->
  t_latency t2 = micros Tlat2 ->
  t_start t2 = micros Tstart2 ->
  t_runtime t2 = micros Trun2 ->
  0 <= Tlat2 - Tend1 < 4294967296 ->
  0 <= Trun2 - Tstart2 < 4294967296 ->
  exists st1 ev1 d1 st2 ev2 d2,
    DirectMatrix_RefreshPWMLine_profiled fuel g st d t1
      = Some (st1, ev1, d1) /\
    DirectMatrix_RefreshPWMLine_profiled fuel g st1 d1 t2
      = Some (st2, ev2, d2) /\
    ISR_latency d2 = Tlat2 - Tend1 /\
    ISR_runtime d2 = Trun2 - Tstart2.
Proof.
  intros Hd Hfuel Hend Hlat Hstart Hrun Hgap Hdur.
  unfold DirectMatrix_RefreshPWMLine_profiled.
  rewrite !DirectMatrix_RefreshPWMLine_total by assumption.
  eexists _, _, _, _, _, _. split; [reflexivity|].
  cbn [time]. rewrite DirectMatrix_RefreshPWMLine_total by assumption.
  split; [reflexivity|].
  unfold ISR_latency, ISR_runtime. simpl.
  rewrite Hend, Hlat, Hstart, Hrun.
  split; now apply micros_difference.
Qed.

End Driver.



(** * Concrete runs

    The macros of [LED_Matrix.h] are instantiated with [DINV = 255] (the
    value [begin] compares the shift-register pins with), [DATA = 3] and
    [CLK = 4] (the two entries after the three colour latches). *)

(** C1 at an 8x8 single-colour panel with base period 150 us. *)
Lemma C1_period_schedule_witness :
  DirectMatrix_new (fun _ => Some blank) 8 8 1 =
    Some (constructed_object 8 8, constructed_globals 8 8 1 blank) /\
  1 <= 8 <= 254 /\ 0 <= 8 <= 127 /\ 0 <= 1 <= 127 /\
  0 <= 150 < 4294967296 /\ (256 < 257)%nat /\
  exists g' tr0,
    begin 3 4 257 (constructed_object 8 8) (constructed_globals 8 8 1 blank)
      no_shift_registers 150 = Some (g', tr0) /\
    (forall i, 0 <= i < 4 ->
       nth (Z.to_nat i) (DirectMatrix_ISR_FREQ g') 0 =
       uint32 (Z.shiftl 150 i)) /\
    (forall n, exists st log,
       run_isr 255 3 4 257 g' n refresh_init = Some (st, log) /\
       Forall (fun e =>
                 set_periods (snd e) =
                 if row (fst e) =? 0 then
                   [uint32 (Z.shiftl (nth 0 (DirectMatrix_ISR_FREQ g') 0)
                              (isr_freq_offset (fst e)))]
                 else []) log) /\
    (exists st log,
       run_isr 255 3 4 257 g' (4 * Z.to_nat 8) refresh_init = Some (st, log) /\
       set_periods (events_of log) =
       [nth 0 (DirectMatrix_ISR_FREQ g') 0; nth 1 (DirectMatrix_ISR_FREQ g') 0;
        nth 2 (DirectMatrix_ISR_FREQ g') 0;
        nth 3 (DirectMatrix_ISR_FREQ g') 0]).
Proof.
  repeat (split; [reflexivity || lia|]).
  apply (C1_period_schedule 255 3 4 (fun _ => Some blank) 8 8 1
           no_shift_registers 150 257); reflexivity || lia.
Defined.

(** Column emission at scenario 2 of the spec: row 3 of plane 0, column 5,
    colour 0. *)
Lemma column_emission_in_range_witness :
  isr_dims (panel 8 8 1 dim_pixel) /\
  refresh_inv (panel 8 8 1 dim_pixel) (mkRefresh 3 1 0) /\
  (1 - 1) * 8 <= 127 /\ 0 <= 0 < 1 /\ no_shift_registers 0 = 255 /\ 0 <= 5 < 8 /\
  0 <= dim_pixel (3 * 8 + 5) < 65536 /\ (127 < 128)%nat /\
  exists st' ev,
    DirectMatrix_RefreshPWMLine 255 3 4 128 (panel 8 8 1 dim_pixel)
      (mkRefresh 3 1 0) = Some (st', ev) /\
    (In (DigitalWrite (ColPin (0 * 8 + 5)) HIGH) ev <->
     Z.land (dim_pixel (3 * 8 + 5)) (Z.shiftl 1 (4 * 0)) <> 0) /\
    (In (DigitalWrite (ColPin (0 * 8 + 5)) LOW) ev <->
     Z.land (dim_pixel (3 * 8 + 5)) (Z.shiftl 1 (4 * 0)) = 0) /\
    Z.shiftl 1 (4 * 0) = Z.shiftl 1 (4 * 0 + 0).
Proof.
  assert (Hd : isr_dims (panel 8 8 1 dim_pixel))
    by (unfold isr_dims; simpl; lia).
  assert (Hi : refresh_inv (panel 8 8 1 dim_pixel) (mkRefresh 3 1 0))
    by (unfold refresh_inv; simpl; lia).
  assert (Hcell : 0 <= dim_pixel (3 * 8 + 5) < 65536)
    by (unfold dim_pixel; simpl; lia).
  split; [exact Hd|]. split; [exact Hi|].
  split; [lia|]. split; [lia|]. split; [reflexivity|]. split; [lia|].
  split; [exact Hcell|]. split; [lia|].
  apply (column_emission_in_range 255 3 4 (panel 8 8 1 dim_pixel)
           (mkRefresh 3 1 0) 128 0 5 Hd Hi);
    [simpl; lia | simpl; lia | reflexivity | simpl; lia | exact Hcell | lia].
Defined.

(** C3 at an 8x8 single-colour panel. *)
Lemma C3_frame_coverage_witness :
  isr_dims (panel 8 8 1 blank) /\ (127 < 128)%nat /\
  exists st log,
    run_isr 255 3 4 128 (panel 8 8 1 blank) (4 * Z.to_nat 8) refresh_init
      = Some (st, log) /\
    length log = (4 * Z.to_nat 8)%nat /\
    forall r, 0 <= r < 8 ->
      count_enables r (events_of log) = 4%nat /\
      forall p, 0 <= p < 4 ->
        count_enables r (events_of (in_plane p log)) = 1%nat.
Proof.
  assert (Hd : isr_dims (panel 8 8 1 blank)) by (unfold isr_dims; simpl; lia).
  split; [exact Hd|]. split; [lia|].
  apply (C3_frame_coverage 255 3 4 (panel 8 8 1 blank) 128 Hd). lia.
Defined.

(** C4 (amended) at an 8x8 panel, after the eight invocations of the first
    pass. *)
Lemma C4_refresh_invariant_witness :
  isr_dims (panel 8 8 1 blank) /\ 1 <= 8 /\ (127 < 128)%nat /\
  exists st log,
    run_isr 255 3 4 128 (panel 8 8 1 blank) 8 refresh_init = Some (st, log) /\
    pwm st = Z.shiftl 1 (isr_freq_offset st) /\
    0 <= row st < 8 /\
    In (pwm st) [1; 2; 4; 8] /\
    0 <= isr_freq_offset st < 4 /\
    exists ev,
      DirectMatrix_RefreshPWMLine 255 3 4 128 (panel 8 8 1 blank) st =
      Some (if row st + 1 <? 8 then
              mkRefresh (row st + 1) (pwm st) (isr_freq_offset st)
            else if 16 <=? 2 * pwm st then mkRefresh 0 1 0
            else mkRefresh 0 (2 * pwm st) (isr_freq_offset st + 1),
            ev).
Proof.
  assert (Hd : isr_dims (panel 8 8 1 blank)) by (unfold isr_dims; simpl; lia).
  split; [exact Hd|]. split; [lia|]. split; [lia|].
  apply (C4_refresh_invariant 255 3 4 (panel 8 8 1 blank) 128 8 Hd);
    simpl; lia.
Defined.

(** C4 as the spec states it fails: after the eight invocations of the
    first pass of an 8x8 panel the statics are row 0, mask 2, index 1, and
    [1 << (2 * 1)] is 4. *)
Lemma C4_spec_invariant_counterexample :
  exists st log,
    run_isr 255 3 4 128 (panel 8 8 1 blank) 8 refresh_init = Some (st, log) /\
    st = mkRefresh 0 2 1 /\
    pwm st <> Z.shiftl 1 (2 * isr_freq_offset st).
Proof.
  eexists _, _. split; [vm_compute; reflexivity|].
  split; [reflexivity|]. vm_compute. discriminate.
Qed.

(** Row exclusivity at an 8x8 single-colour panel, over [begin] and forty
    invocations. *)
Lemma row_exclusivity_in_range_witness :
  DirectMatrix_new (fun _ => Some blank) 8 8 1 =
    Some (constructed_object 8 8, constructed_globals 8 8 1 blank) /\
  1 <= 8 <= 128 /\ 0 <= 8 <= 127 /\ 0 <= 1 <= 127 /\ (256 < 257)%nat /\
  exists g' tr0 st log,
    begin 3 4 257 (constructed_object 8 8) (constructed_globals 8 8 1 blank)
      no_shift_registers 150 = Some (g', tr0) /\
    run_isr 255 3 4 257 g' 40 refresh_init = Some (st, log) /\
    (forall i, 0 <= i < 8 -> pins_after unwritten tr0 (RowPin i) = Some HIGH) /\
    (forall pre suf,
       tr0 ++ events_of log = pre ++ suf ->
       exclusive (pins_after unwritten pre)) /\
    Forall (fun e =>
              exists per cols,
                snd e = per ++ [DigitalWrite (RowPin ((row (fst e) - 1) mod 8))
                                  HIGH]
                          ++ cols ++ [DigitalWrite (RowPin (row (fst e))) LOW]
                /\ Forall (fun x => gpio_write x = false) per
                /\ Forall (fun x => column_write x = true) cols) log.
Proof.
  repeat (split; [reflexivity || lia|]).
  apply (row_exclusivity_in_range 255 3 4 (fun _ => Some blank) 8 8 1
           no_shift_registers 150 257 40); reflexivity || lia.
Defined.

(** C6 at scenario 6 of the spec: rotation 2, plot (0, 0) with word 1 goes
    to cell (7, 7). *)
Lemma C6_rotation_round_trip_witness :
  _num_rows (mkObject 8 8 2) = 8 /\ _num_cols (mkObject 8 8 2) = 8 /\
  rotation (mkObject 8 8 2) = 2 /\ 0 <= 2 <= 3 /\ 0 <= 0 < 8 /\ 0 <= 0 < 8 /\
  drawPixel (mkObject 8 8 2) (panel 8 8 1 blank) 0 0 1 =
    with_matrix (panel 8 8 1 blank)
      (store (DirectMatrix_MATRIX (panel 8 8 1 blank))
         (spec_cell 8 (spec_rotate 2 (0, 0))) 1) /\
  0 <= spec_cell 8 (spec_rotate 2 (0, 0)) < 64 /\
  DirectMatrix_MATRIX (drawPixel (mkObject 8 8 2) (panel 8 8 1 blank) 0 0 1)
    (spec_cell 8 (spec_rotate 2 (0, 0))) = 1 /\
  (forall i, i <> spec_cell 8 (spec_rotate 2 (0, 0)) ->
     DirectMatrix_MATRIX (drawPixel (mkObject 8 8 2) (panel 8 8 1 blank) 0 0 1)
       i = DirectMatrix_MATRIX (panel 8 8 1 blank) i) /\
  spec_rotate 1 (spec_rotate 1 (spec_rotate 1 (spec_rotate 1 (0, 0)))) = (0, 0).
Proof.
  repeat (split; [reflexivity || lia|]).
  apply (C6_rotation_round_trip (mkObject 8 8 2) (panel 8 8 1 blank) 2 0 0 1);
    reflexivity || lia.
Defined.

(** C7 at [x = 8]. *)
Lemma C7_out_of_bounds_noop_witness :
  (8 < 0 \/ 8 <= 8 \/ 0 < 0 \/ 8 <= 0) /\
  drawPixel (mkObject 8 8 0) (panel 8 8 1 blank) 8 0 15 = panel 8 8 1 blank.
Proof.
  assert (H : 8 < 0 \/ 8 <= 8 \/ 0 < 0 \/ 8 <= 0) by lia.
  split; [exact H|].
  exact (C7_out_of_bounds_noop (mkObject 8 8 0) (panel 8 8 1 blank) 8 0 15 H).
Defined.

(** C10 (amended) at a 4x4 panel. *)
Lemma C10_plot_past_framebuffer_witness :
  DirectMatrix_new (fun _ => Some blank) 4 4 1 =
    Some (constructed_object 4 4, constructed_globals 4 4 1 blank) /\
  0 <= 4 /\ 4 * 4 <= 7 * 4 + 7 /\
  exists x y,
    0 <= x < 8 /\ 0 <= y < 8 /\
    4 * 4 <= spec_cell 4 (spec_rotate 0 (x, y)) /\
    forall w,
      drawPixel (mkObject (_num_rows (constructed_object 4 4))
                   (_num_cols (constructed_object 4 4)) 0)
        (constructed_globals 4 4 1 blank) x y w =
      with_matrix (constructed_globals 4 4 1 blank)
        (store (DirectMatrix_MATRIX (constructed_globals 4 4 1 blank))
           (spec_cell 4 (spec_rotate 0 (x, y))) w) /\
      DirectMatrix_MATRIX
        (drawPixel (mkObject (_num_rows (constructed_object 4 4))
                      (_num_cols (constructed_object 4 4)) 0)
           (constructed_globals 4 4 1 blank) x y w)
        (spec_cell 4 (spec_rotate 0 (x, y))) = w.
Proof.
  repeat (split; [reflexivity || lia|]).
  apply (C10_plot_past_framebuffer (fun _ => Some blank) 4 4 1 0);
    reflexivity || lia.
Defined.

(** C10 as stated fails: a 15x1 matrix has [15 * 1 < 64] cells, yet every
    plot that passes the bounds check stores at a cell below 15, inside the
    allocated block. *)
Lemma C10_small_matrix_counterexample :
  DirectMatrix_new (fun _ => Some blank) 15 1 1 =
    Some (constructed_object 15 1, constructed_globals 15 1 1 blank) /\
  15 * 1 < 64 /\
  forall x y, 0 <= x < 8 -> 0 <= y < 8 ->
    0 <= y * 1 + x < 15 * 1 /\
    forall w,
      drawPixel (constructed_object 15 1) (constructed_globals 15 1 1 blank)
        x y w =
      with_matrix (constructed_globals 15 1 1 blank)
        (store (DirectMatrix_MATRIX (constructed_globals 15 1 1 blank))
           (y * 1 + x) w).
Proof.
  split; [reflexivity|]. split; [lia|].
  intros x y Hx Hy. split; [lia|]. intros w.
  now rewrite drawPixel_in_bounds.
Qed.

(** C9. [begin] on an 8x8 panel with two colours and no shift register:
    the call returns; it neither sets the mode of nor writes to the column
    pins 8 to 15 of the second colour, which the first invocation of the
    interrupt routine then drives. *)
Theorem C9_begin_skips_second_colour :
  exists o g g' tr,
    DirectMatrix_new (fun _ => Some blank) 8 8 2 = Some (o, g) /\
    begin 3 4 257 o g no_shift_registers 150 = Some (g', tr) /\
    (forall k, 8 <= k < 16 ->
       ~ In (PinMode (ColPin k)) tr /\
       forall l, ~ In (DigitalWrite (ColPin k) l) tr) /\
    exists st ev,
      DirectMatrix_RefreshPWMLine 255 3 4 257 g' refresh_init = Some (st, ev) /\
      forall k, 8 <= k < 16 -> In (DigitalWrite (ColPin k) LOW) ev.
Proof.
  eexists _, _, _, _. split; [reflexivity|].
  split; [apply begin_total; simpl; lia|].
  split.
  - intros k Hk.
    destruct (begin_column_pins 3 4 (mkObject 8 8 0) no_shift_registers 150 k)
      as [Hmode Hwrite]; [simpl; lia|]. cbn [_num_cols] in Hmode, Hwrite.
    split; [rewrite Hmode; lia|]. intros l. rewrite Hwrite. lia.
  - eexists _, _.
    split; [apply DirectMatrix_RefreshPWMLine_total;
            [unfold isr_dims; simpl; lia | lia]|].
    intros k Hk. apply in_isr_events_column; [simpl; lia..|].
    exists 1, (k - 8). repeat split; simpl; try lia; try reflexivity.
    change (offset_at _ 1) with 8. lia.
Qed.

(** * Concrete runs of the further properties *)

(** Scenario 2 of the spec: the dim pixel is lit for one base period. *)
Lemma bcm_weighting_witness :
  isr_dims (panel 8 8 1 dim_pixel) /\ (1 - 1) * 8 <= 127 /\ 0 <= 0 < 1 /\
  no_shift_registers 0 = 255 /\ 0 <= 3 < 8 /\ 0 <= 5 < 8 /\
  0 <= dim_pixel (3 * 8 + 5) < 65536 /\
  [150; 300; 600; 1200] = [150; 2 * 150; 4 * 150; 8 * 150] /\
  (127 < 128)%nat /\
  exists st log,
    run_isr 255 3 4 128 (panel 8 8 1 dim_pixel) (4 * Z.to_nat 8) refresh_init
      = Some (st, log) /\
    lit_time (panel 8 8 1 dim_pixel) 3 (ColPin (0 * 8 + 5)) log =
    nibble (dim_pixel (3 * 8 + 5)) 0 * 150.
Proof.
  assert (Hd : isr_dims (panel 8 8 1 dim_pixel))
    by (unfold isr_dims; simpl; lia).
  assert (Hcell : 0 <= dim_pixel (3 * 8 + 5) < 65536)
    by (unfold dim_pixel; simpl; lia).
  split; [exact Hd|]. split; [lia|]. split; [lia|]. split; [reflexivity|].
  split; [lia|]. split; [lia|]. split; [exact Hcell|].
  split; [reflexivity|]. split; [lia|].
  apply (bcm_weighting 255 3 4 (panel 8 8 1 dim_pixel) 128 0 3 5 150 Hd);
    [simpl; lia | simpl; lia | reflexivity | simpl; lia | simpl; lia
    | exact Hcell | reflexivity | lia].
Defined.

Lemma frames_repeat_witness :
  isr_dims (panel 8 8 1 blank) /\ (127 < 128)%nat /\
  exists frame,
    run_isr 255 3 4 128 (panel 8 8 1 blank) (4 * Z.to_nat 8) refresh_init
      = Some (refresh_init, frame) /\
    forall k,
      run_isr 255 3 4 128 (panel 8 8 1 blank) (k * (4 * Z.to_nat 8))
        refresh_init = Some (refresh_init, concat (repeat frame k)).
Proof.
  assert (Hd : isr_dims (panel 8 8 1 blank)) by (unfold isr_dims; simpl; lia).
  split; [exact Hd|]. split; [lia|].
  apply (frames_repeat 255 3 4 (panel 8 8 1 blank) 128 Hd). lia.
Defined.

Lemma invocation_gpio_writes_witness :
  isr_dims (panel 8 8 1 blank) /\ (127 < 128)%nat /\
  exists st' ev,
    DirectMatrix_RefreshPWMLine 255 3 4 128 (panel 8 8 1 blank) refresh_init
      = Some (st', ev) /\
    gpio_writes ev =
      (2 + list_sum
             (map (plane_writes 255 (panel 8 8 1 blank))
                (zrange 0 (Z.to_nat 1))))%nat /\
    ((forall j, 0 <= j < 1 -> no_shift_registers j = 255) ->
     Z.of_nat (gpio_writes ev) = 2 + 1 * 8).
Proof.
  assert (Hd : isr_dims (panel 8 8 1 blank)) by (unfold isr_dims; simpl; lia).
  split; [exact Hd|]. split; [lia|].
  apply (invocation_gpio_writes 255 3 4 (panel 8 8 1 blank) refresh_init 128
           Hd). lia.
Defined.

(** Scenario 3 of the spec: row 0 of plane 0, the colour behind the shift
    register. *)
Lemma shift_register_plane_witness :
  isr_dims (sr_panel green_pixel) /\ 0 <= 1 < 65536 /\ 0 <= 1 < 2 /\
  one_shift_register 1 <> 255 /\
  (forall c, 0 <= c < 8 -> 0 <= green_pixel (0 * 8 + c) < 65536) /\
  (127 < 128)%nat /\
  exists st' pre post,
    DirectMatrix_RefreshPWMLine 255 3 4 128 (sr_panel green_pixel)
      refresh_init =
    Some (st',
          pre ++ [DigitalWrite (SRPin 1) LOW]
            ++ flat_map
                 (fun c =>
                    [DigitalWrite (SRPin 4) LOW;
                     DigitalWrite (SRPin 3)
                       (if Z.land (green_pixel (0 * 8 + c))
                             (Z.shiftl 1 (4 * 1)) =? 0
                        then LOW else HIGH);
                     DigitalWrite (SRPin 4) HIGH])
                 (zrange 0 (Z.to_nat 8))
            ++ [DigitalWrite (SRPin 1) HIGH] ++ post).
Proof.
  assert (Hd : isr_dims (sr_panel green_pixel))
    by (unfold isr_dims; simpl; lia).
  assert (Hsr : one_shift_register 1 <> 255) by (vm_compute; discriminate).
  assert (Hcells : forall c, 0 <= c < 8 ->
            0 <= green_pixel (0 * 8 + c) < 65536).
  { intros c Hc. unfold green_pixel. destruct (0 * 8 + c =? 0); lia. }
  split; [exact Hd|]. split; [lia|]. split; [lia|]. split; [exact Hsr|].
  split; [exact Hcells|]. split; [lia|].
  apply (shift_register_plane 255 3 4 (sr_panel green_pixel) refresh_init 128
           1 Hd); [simpl; lia | simpl; lia | exact Hsr | exact Hcells | lia].
Defined.

Lemma clear_returns_iff_witness :
  (256 < 257)%nat /\
  ((exists g', clear 257 (constructed_object 8 8) (panel 8 8 1 dim_pixel)
                 = Some g')
   <-> 8 * 8 <= 255).
Proof.
  split; [lia|].
  apply (clear_returns_iff (constructed_object 8 8) (panel 8 8 1 dim_pixel)
           257). lia.
Defined.

Lemma clear_then_dark_witness :
  isr_dims (panel 8 8 1 dim_pixel) /\ 8 = 8 /\ 8 = 8 /\ 8 * 8 <= 255 /\
  0 <= 3 < 8 /\ (256 < 257)%nat /\
  exists g' st' ev,
    clear 257 (constructed_object 8 8) (panel 8 8 1 dim_pixel) = Some g' /\
    DirectMatrix_RefreshPWMLine 255 3 4 257 g' (mkRefresh 3 1 0)
      = Some (st', ev) /\
    (forall k, ~ In (DigitalWrite (ColPin k) HIGH) ev) /\
    (forall j, 0 <= j < 1 -> no_shift_registers j <> 255 ->
       exists pre post,
         ev = pre ++ [DigitalWrite (SRPin j) LOW]
                ++ flat_map
                     (fun _ =>
                        [DigitalWrite (SRPin 4) LOW;
                         DigitalWrite (SRPin 3) LOW;
                         DigitalWrite (SRPin 4) HIGH])
                     (zrange 0 (Z.to_nat 8))
                ++ [DigitalWrite (SRPin j) HIGH] ++ post).
Proof.
  assert (Hd : isr_dims (panel 8 8 1 dim_pixel))
    by (unfold isr_dims; simpl; lia).
  split; [exact Hd|]. split; [reflexivity|]. split; [reflexivity|].
  split; [lia|]. split; [lia|]. split; [lia|].
  apply (clear_then_dark 255 3 4 (constructed_object 8 8)
           (panel 8 8 1 dim_pixel) (mkRefresh 3 1 0) 257 Hd);
    [reflexivity | reflexivity | simpl; lia | simpl; lia | lia].
Defined.

(** Plot [0x0004] at (5, 3) without rotation; the row-3 invocation of
    plane 2 lights column 5. *)
Lemma plot_then_refresh_witness :
  isr_dims (panel 8 8 1 blank) /\ 8 = 8 /\ 8 = 8 /\ 1 * 8 <= 128 /\
  0 <= 5 < 8 /\ 0 <= 3 < 8 /\ 0 <= 4 < 65536 /\ 0 <= 0 < 1 /\
  no_shift_registers 0 = 255 /\ 3 = snd (spec_rotate 0 (5, 3)) /\
  0 <= 2 < 4 /\ 4 = Z.shiftl 1 2 /\ (127 < 128)%nat /\
  exists st' ev,
    DirectMatrix_RefreshPWMLine 255 3 4 128
      (drawPixel (constructed_object 8 8) (panel 8 8 1 blank) 5 3 4)
      (mkRefresh 3 4 2) = Some (st', ev) /\
    (In (DigitalWrite (ColPin (0 * 8 + fst (spec_rotate 0 (5, 3)))) HIGH) ev
     <-> Z.testbit 4 (4 * 0 + 2) = true).
Proof.
  assert (Hd : isr_dims (panel 8 8 1 blank)) by (unfold isr_dims; simpl; lia).
  split; [exact Hd|].
  repeat (split; [reflexivity || lia|]).
  apply (plot_then_refresh 255 3 4 (constructed_object 8 8)
           (panel 8 8 1 blank) (mkRefresh 3 4 2) 128 5 3 4 0 Hd);
    try reflexivity; simpl; lia.
Defined.

Lemma plots_independent_witness :
  8 <= 8 /\ 0 <= 0 < 8 /\ 0 <= 0 < 8 /\ 0 <= 7 < 8 /\ 0 <= 7 < 8 /\
  (0 <> 7 \/ 0 <> 7) /\
  DirectMatrix_MATRIX
    (drawPixel (constructed_object 8 8)
       (drawPixel (constructed_object 8 8) (panel 8 8 1 blank) 0 0 15) 7 7 1)
    (spec_cell 8 (spec_rotate 0 (0, 0))) = 15 /\
  DirectMatrix_MATRIX
    (drawPixel (constructed_object 8 8)
       (drawPixel (constructed_object 8 8) (panel 8 8 1 blank) 0 0 15) 7 7 1)
    (spec_cell 8 (spec_rotate 0 (7, 7))) = 1 /\
  forall i,
    DirectMatrix_MATRIX
      (drawPixel (constructed_object 8 8)
         (drawPixel (constructed_object 8 8) (panel 8 8 1 blank) 0 0 15)
         7 7 1) i =
    DirectMatrix_MATRIX
      (drawPixel (constructed_object 8 8)
         (drawPixel (constructed_object 8 8) (panel 8 8 1 blank) 7 7 1)
         0 0 15) i.
Proof.
  assert (Hne : 0 <> 7 \/ 0 <> 7) by lia.
  split; [lia|]. split; [lia|]. split; [lia|]. split; [lia|]. split; [lia|].
  split; [exact Hne|].
  apply (plots_independent (constructed_object 8 8) (panel 8 8 1 blank)
           0 0 15 7 7 1); [simpl; lia | lia | lia | lia | lia | exact Hne].
Defined.

Lemma narrow_panel_aliases_witness :
  1 <= 4 <= 7 /\ rotation (constructed_object 4 4) = 0 /\
  drawPixel (constructed_object 4 4) (panel 4 4 1 blank) 4 0 9 =
  drawPixel (constructed_object 4 4) (panel 4 4 1 blank) 0 1 9.
Proof.
  split; [lia|]. split; [reflexivity|].
  apply (narrow_panel_aliases (constructed_object 4 4) (panel 4 4 1 blank) 9);
    [simpl; lia | reflexivity].
Defined.

Lemma begin_configures_then_starts_witness :
  0 <= 8 <= 254 /\ 0 <= 8 <= 255 /\ (256 < 257)%nat /\
  exists g' setup,
    begin 3 4 257 (constructed_object 8 8)
      (constructed_globals 8 8 2 blank) one_shift_register 150 =
      Some (g', setup ++ [TimerInitialize 150; AttachInterrupt]) /\
    Forall (fun e => exists p, e = PinMode p \/ exists l, e = DigitalWrite p l)
      setup /\
    (forall pre p l suf,
       setup = pre ++ DigitalWrite p l :: suf -> In (PinMode p) pre) /\
    DirectMatrix_MATRIX g' = blank /\
    DirectMatrix_ARRAY_ROWS g' = 8 /\
    DirectMatrix_ARRAY_COLS g' = 8 /\
    DirectMatrix_NUM_COLORS g' = 2 /\
    DirectMatrix_SR_PINS g' = one_shift_register.
Proof.
  split; [lia|]. split; [lia|]. split; [lia|].
  apply (begin_configures_then_starts 3 4 (constructed_object 8 8)
           (constructed_globals 8 8 2 blank) one_shift_register 150 257);
    simpl; lia.
Defined.

Lemma begin_preclocks_witness :
  0 <= 8 <= 254 /\ 0 <= 8 <= 255 /\ (256 < 257)%nat /\ 0 <= 1 < 3 /\
  one_shift_register 1 <> 255 /\
  exists g' pre post,
    begin 3 4 257 (constructed_object 8 8)
      (constructed_globals 8 8 2 blank) one_shift_register 150 =
    Some (g',
          pre ++ [PinMode (SRPin 1); PinMode (SRPin 3);
                  PinMode (SRPin 4); DigitalWrite (SRPin 1) LOW]
            ++ flat_map
                 (fun i =>
                    [DigitalWrite (SRPin 4) LOW;
                     DigitalWrite (SRPin 3) (if Z.odd i then HIGH else LOW);
                     DigitalWrite (SRPin 4) HIGH])
                 (zrange 0 (Z.to_nat (8 + 1)))
            ++ [DigitalWrite (SRPin 1) HIGH] ++ post).
Proof.
  assert (Hsr : one_shift_register 1 <> 255) by (vm_compute; discriminate).
  split; [lia|]. split; [lia|]. split; [lia|]. split; [lia|].
  split; [exact Hsr|].
  apply (begin_preclocks 3 4 (constructed_object 8 8)
           (constructed_globals 8 8 2 blank) one_shift_register 150 257 1);
    [simpl; lia | simpl; lia | lia | lia | exact Hsr].
Defined.

Lemma begin_hangs_at_255_rows_witness :
  _num_rows (constructed_object 255 1) = 255 /\ 0 <= 1 < 3 /\
  one_shift_register 1 <> 255 /\
  begin 3 4 1000 (constructed_object 255 1)
    (constructed_globals 255 1 2 blank) one_shift_register 150 = None.
Proof.
  assert (Hsr : one_shift_register 1 <> 255) by (vm_compute; discriminate).
  split; [reflexivity|]. split; [lia|]. split; [exact Hsr|].
  apply (begin_hangs_at_255_rows 3 4 (constructed_object 255 1)
           (constructed_globals 255 1 2 blank) one_shift_register 150 1000 1);
    [reflexivity | lia | exact Hsr].
Defined.

Lemma clear_small_witness :
  0 <= 8 * 8 <= 255 /\ (256 < 257)%nat /\
  exists g',
    clear 257 (constructed_object 8 8) (panel 8 8 1 dim_pixel) = Some g' /\
    (forall i, 0 <= i < 8 * 8 -> DirectMatrix_MATRIX g' i = 0) /\
    (forall i, ~ 0 <= i < 8 * 8 -> DirectMatrix_MATRIX g' i = dim_pixel i) /\
    exists g'',
      clear 257 (constructed_object 8 8) g' = Some g'' /\
      forall i, DirectMatrix_MATRIX g'' i = DirectMatrix_MATRIX g' i.
Proof.
  split; [lia|]. split; [lia|].
  apply (clear_small (constructed_object 8 8) (panel 8 8 1 dim_pixel) 257);
    simpl; lia.
Defined.

Lemma DirectMatrix_RefreshPWMLine_wide_witness :
  128 <= 128 /\ 1 <= 1 /\
  DirectMatrix_RefreshPWMLine 255 3 4 1000 (panel 1 128 1 blank) refresh_init
    = None.
Proof.
  split; [lia|]. split; [lia|].
  apply (DirectMatrix_RefreshPWMLine_wide 255 3 4 (panel 1 128 1 blank)
           refresh_init 1000); simpl; lia.
Defined.

Lemma drawPixel_inside_witness :
  0 <= 8 /\ 7 * 8 + 7 < 8 * 8 /\ 0 <= 7 < 8 /\ 0 <= 7 < 8 /\
  exists i,
    0 <= i < 8 * 8 /\
    drawPixel (constructed_object 8 8) (panel 8 8 1 blank) 7 7 15 =
    with_matrix (panel 8 8 1 blank)
      (store (DirectMatrix_MATRIX (panel 8 8 1 blank)) i 15).
Proof.
  split; [lia|]. split; [lia|]. split; [lia|]. split; [lia|].
  apply (drawPixel_inside (constructed_object 8 8) (panel 8 8 1 blank)
           8 7 7 15); simpl; lia.
Defined.

(** The clock wraps between the two invocations: the first ends 96 us
    before 2^32, the second starts 104 us after it and runs for 100 us. *)
Lemma profiling_survives_wrap_witness :
  isr_dims (panel 8 8 1 blank) /\ (127 < 128)%nat /\
  t_end (mkReadings 0 0 0 0 4294967200) = micros 4294967200 /\
  t_latency (mkReadings 0 104 108 208 212) = micros 4294967400 /\
  t_start (mkReadings 0 104 108 208 212) = micros 4294967404 /\
  t_runtime (mkReadings 0 104 108 208 212) = micros 4294967504 /\
  0 <= 4294967400 - 4294967200 < 4294967296 /\
  0 <= 4294967504 - 4294967404 < 4294967296 /\
  exists st1 ev1 d1 st2 ev2 d2,
    DirectMatrix_RefreshPWMLine_profiled 255 3 4 128 (panel 8 8 1 blank)
      refresh_init (mkDiagnostics None 0 0) (mkReadings 0 0 0 0 4294967200)
      = Some (st1, ev1, d1) /\
    DirectMatrix_RefreshPWMLine_profiled 255 3 4 128 (panel 8 8 1 blank)
      st1 d1 (mkReadings 0 104 108 208 212) = Some (st2, ev2, d2) /\
    ISR_latency d2 = 4294967400 - 4294967200 /\
    ISR_runtime d2 = 4294967504 - 4294967404.
Proof.
  assert (Hd : isr_dims (panel 8 8 1 blank)) by (unfold isr_dims; simpl; lia).
  split; [exact Hd|]. split; [lia|].
  repeat (split; [reflexivity || lia|]).
  apply (profiling_survives_wrap 255 3 4 (panel 8 8 1 blank) 128 refresh_init
           (mkDiagnostics None 0 0) (mkReadings 0 0 0 0 4294967200)
           (mkReadings 0 104 108 208 212)
           4294967200 4294967400 4294967404 4294967504 Hd);
    reflexivity || lia.
Defined.

(** * Outside the range of the [int8_t] locals *)

(** C2. BCM column emission fails on an 8x43 panel with four colours on
    direct pins: in the invocation for row 0 of plane 0, with [0xF000] in
    cell (0, 0), the routine returns, the plane bit [1 << 12] of the cell is
    set, yet no column pin of the fourth colour (table indices
    [3 * 43 + c]) is written at all; [col_pin_offset] has wrapped from 129
    to -127 and the HIGH level goes to the table index -127. *)
Theorem C2_fourth_colour_offset_wraps :
  exists st' ev,
    DirectMatrix_RefreshPWMLine 255 3 4 257 (panel 8 43 4 fourth_colour_pixel)
      refresh_init = Some (st', ev) /\
    Z.land (fourth_colour_pixel (0 * 43 + 0)) (Z.shiftl 1 (4 * 3)) <> 0 /\
    (forall c l, 0 <= c < 43 ->
       ~ In (DigitalWrite (ColPin (3 * 43 + c)) l) ev) /\
    In (DigitalWrite (ColPin (-127)) HIGH) ev.
Proof.
  set (ev := isr_events 255 3 4 (panel 8 43 4 fourth_colour_pixel)
               refresh_init).
  assert (Hbelow : column_pins_below 129 ev = true)
    by (vm_compute; reflexivity).
  assert (Hwrap : drives_high (ColPin (-127)) ev = true)
    by (vm_compute; reflexivity).
  exists (advance (panel 8 43 4 fourth_colour_pixel) refresh_init), ev.
  split; [apply DirectMatrix_RefreshPWMLine_total;
          [unfold isr_dims; simpl; lia | lia]|].
  split; [vm_compute; discriminate|].
  split.
  - intros c l Hc Hin.
    unfold column_pins_below in Hbelow. rewrite forallb_forall in Hbelow.
    specialize (Hbelow _ Hin). cbv beta iota in Hbelow.
    apply Z.ltb_lt in Hbelow. lia.
  - now apply drives_high_In.
Qed.

(** C5. Row exclusivity fails on a 129x1 panel: [begin] and 130 invocations
    of the interrupt routine return, the first invocation of the second
    pass blanks the table index -128 instead of row 128 (the [int8_t]
    [oldrow] cannot hold 128), and afterwards row pins 128 and 0 are both
    LOW. *)
Theorem C5_two_rows_enabled_at_129_rows :
  exists o g g' tr0 st log,
    DirectMatrix_new (fun _ => Some blank) 129 1 1 = Some (o, g) /\
    begin 3 4 257 o g no_shift_registers 150 = Some (g', tr0) /\
    run_isr 255 3 4 257 g' 130 refresh_init = Some (st, log) /\
    In (DigitalWrite (RowPin (-128)) HIGH) (events_of log) /\
    ~ In (DigitalWrite (RowPin 128) HIGH) (events_of log) /\
    pins_after unwritten (tr0 ++ events_of log) (RowPin 128) = Some LOW /\
    pins_after unwritten (tr0 ++ events_of log) (RowPin 0) = Some LOW /\
    ~ exclusive (pins_after unwritten (tr0 ++ events_of log)).
Proof.
  set (g' := begin_globals (mkGlobals 129 1 1 blank (fun _ => 0) [0; 0; 0; 0])
               no_shift_registers 150).
  set (tr0 := begin_events 3 4 (mkObject 129 1 0) no_shift_registers 150).
  set (log := isr_log 255 3 4 g' 130 refresh_init).
  assert (Hblank : drives_high (RowPin (-128)) (events_of log) = true)
    by (vm_compute; reflexivity).
  assert (Hkept : drives_high (RowPin 128) (events_of log) = false)
    by (vm_compute; reflexivity).
  assert (H128 : pins_after unwritten (tr0 ++ events_of log) (RowPin 128)
                 = Some LOW) by (vm_compute; reflexivity).
  assert (H0 : pins_after unwritten (tr0 ++ events_of log) (RowPin 0)
               = Some LOW) by (vm_compute; reflexivity).
  exists (mkObject 129 1 0),
    (mkGlobals 129 1 1 blank (fun _ => 0) [0; 0; 0; 0]), g', tr0,
    (advance_n g' 130 refresh_init), log.
  split; [reflexivity|].
  split; [apply begin_total; simpl; lia|].
  split; [apply run_isr_total; [unfold isr_dims; simpl; lia | lia]|].
  split; [now apply drives_high_In|].
  split.
  - intros Hin. apply drives_high_In in Hin. congruence.
  - split; [exact H128|]. split; [exact H0|].
    intros Hex. specialize (Hex 128 0 H128 H0). discriminate.
Qed.
